(** * ivsmeta: PES header parsing, PES reassembly and the ID3 metadata pipeline

    A shallow embedding of the Go package [ivsmeta] (PES header parser,
    PES accumulator, metadata value splitting and the packet pipeline),
    followed by the properties established about it.

    Conventions of the embedding:
    - Go's fixed-width unsigned integers are [Z] values; an operation that
      can leave the width (a left shift) is written with its wrap-around;
    - a [[]byte] is a [list byte]; [len] is its length as a [Z];
    - a Go [string] is a [string] (a sequence of 8-bit characters);
    - a run-time panic (index or slice out of range, nil dereference) is an
      explicit outcome of the [go] monad, next to a normal return;
    - a Go [(value, error)] result keeps both components where the source
      uses both, and [option error] stands for a possibly nil [error];
    - functions of other packages (gots, easyid3, psi) are parameters of
      the section that uses them. *)

From Stdlib Require Import ZArith Lia Strings.Byte String Ascii.
From stdpp Require Import gmap strings list.
From Equations Require Import Equations.

Open Scope Z_scope.

(** ** Errors *)

(** The [error] values the package creates or passes on.  [Wrap msg e] is
    [fmt.Errorf("msg: %w", e)]; [errors_New] stands for an error value made
    by a collaborator. *)
Inductive error : Type :=
| io_EOF
| io_ErrUnexpectedEOF
| errors_New (msg : string)
| ErrTooShort (n : Z)
| ErrOverrun (expected got : Z)
| Wrap (msg : string) (e : error).

#[global] Instance error_eq_dec : EqDecision error.
Proof. solve_decision. Defined.

(** [errors.Is]: [err] or an error it wraps is [target]. *)
Fixpoint errors_Is (err target : error) : bool :=
  if decide (err = target) then true
  else match err with
       | Wrap _ e => errors_Is e target
       | _ => false
       end.

Definition is_overrun (err : option error) : bool :=
  match err with
  | Some (ErrOverrun _ _) => true
  | _ => false
  end.

(** ** Run-time outcomes *)

Inductive panic : Type :=
| IndexOutOfRange (i len : nat)
| SliceOutOfRange (lo hi len : nat)
| NilDereference.

Inductive go (A : Type) : Type :=
| Ret (a : A)
| Panic (p : panic).
Arguments Ret {A} a.
Arguments Panic {A} p.

#[global] Instance go_ret : MRet go := λ A a, Ret a.
#[global] Instance go_bind : MBind go :=
  λ A B f m, match m with Ret a => f a | Panic p => Panic p end.

Definition panics {A} (m : go A) : bool :=
  match m with Panic _ => true | Ret _ => false end.

(** ** Bytes and slices *)

Definition u8 (b : byte) : Z := Z.of_N (Byte.to_N b).

Definition len {A} (s : list A) : Z := Z.of_nat (length s).

(** [s[i]] *)
Definition index (s : list byte) (i : nat) : go byte :=
  match s !! i with
  | Some x => Ret x
  | None => Panic (IndexOutOfRange i (length s))
  end.

(** [s[lo:hi]] *)
Definition slice (s : list byte) (lo hi : nat) : go (list byte) :=
  if decide (lo ≤ hi ≤ length s)%nat then Ret (take (hi - lo) (drop lo s))
  else Panic (SliceOutOfRange lo hi (length s)).

(** [x << n] on a [w]-bit unsigned integer. *)
Definition shl (w : Z) (x n : Z) : Z := Z.shiftl x n mod 2 ^ w.

(** ** PES header (part_000) *)

Definition STREAM_ID_PADDNG_STREAM : Z := 190.
Definition STREAM_ID_PRIVATE_STREAM_2 : Z := 191.
Definition STREAM_ID_ECM_STREAM : Z := 240.
Definition STREAM_ID_EMM_STREAM : Z := 241.
Definition STREAM_ID_DSM_CC_STREAM : Z := 242.
Definition STREAM_ID_ITU_T_H222_1_TYPE_E : Z := 248.
Definition STREAM_ID_PROGRAM_STREAM_DIRECTORY : Z := 255.

(** The PTS/DTS indicator values of package gots, as the header layout
    comment of the source gives them ([11] = both, [10] = only PTS). *)
Definition PTS_DTS_INDICATOR_BOTH : Z := 3.
Definition PTS_DTS_INDICATOR_ONLY_PTS : Z := 2.
Definition PTS_DTS_INDICATOR_NONE : Z := 0.

Record PESHeader : Type := mkPESHeader {
  packetStartCodePrefix : Z;
  dataAlignment : bool;
  streamId : Z;
  pesPacketLength : Z;
  dataStartIndex : Z;
  ptsDtsIndicator : Z;
  pts : Z;
  dts : Z;
  data : list byte
}.

(** [new(PESHeader)]: every field at its zero value. *)
Definition new_PESHeader : PESHeader :=
  mkPESHeader 0 false 0 0 0 0 0 0 [].

Definition set_packetStartCodePrefix (v : Z) (p : PESHeader) : PESHeader :=
  mkPESHeader v (dataAlignment p) (streamId p) (pesPacketLength p)
    (dataStartIndex p) (ptsDtsIndicator p) (pts p) (dts p) (data p).
Definition set_dataAlignment (v : bool) (p : PESHeader) : PESHeader :=
  mkPESHeader (packetStartCodePrefix p) v (streamId p) (pesPacketLength p)
    (dataStartIndex p) (ptsDtsIndicator p) (pts p) (dts p) (data p).
Definition set_streamId (v : Z) (p : PESHeader) : PESHeader :=
  mkPESHeader (packetStartCodePrefix p) (dataAlignment p) v (pesPacketLength p)
    (dataStartIndex p) (ptsDtsIndicator p) (pts p) (dts p) (data p).
Definition set_pesPacketLength (v : Z) (p : PESHeader) : PESHeader :=
  mkPESHeader (packetStartCodePrefix p) (dataAlignment p) (streamId p) v
    (dataStartIndex p) (ptsDtsIndicator p) (pts p) (dts p) (data p).
Definition set_dataStartIndex (v : Z) (p : PESHeader) : PESHeader :=
  mkPESHeader (packetStartCodePrefix p) (dataAlignment p) (streamId p)
    (pesPacketLength p) v (ptsDtsIndicator p) (pts p) (dts p) (data p).
Definition set_ptsDtsIndicator (v : Z) (p : PESHeader) : PESHeader :=
  mkPESHeader (packetStartCodePrefix p) (dataAlignment p) (streamId p)
    (pesPacketLength p) (dataStartIndex p) v (pts p) (dts p) (data p).
Definition set_pts (v : Z) (p : PESHeader) : PESHeader :=
  mkPESHeader (packetStartCodePrefix p) (dataAlignment p) (streamId p)
    (pesPacketLength p) (dataStartIndex p) (ptsDtsIndicator p) v (dts p) (data p).
Definition set_dts (v : Z) (p : PESHeader) : PESHeader :=
  mkPESHeader (packetStartCodePrefix p) (dataAlignment p) (streamId p)
    (pesPacketLength p) (dataStartIndex p) (ptsDtsIndicator p) (pts p) v (data p).
Definition set_data (v : list byte) (p : PESHeader) : PESHeader :=
  mkPESHeader (packetStartCodePrefix p) (dataAlignment p) (streamId p)
    (pesPacketLength p) (dataStartIndex p) (ptsDtsIndicator p) (pts p) (dts p) v.

(** [ExtractTime] extracts a PTS time. *)
Definition ExtractTime (bytes : list byte) : go Z :=
  b0 ← index bytes 0;
  let a := Z.land (Z.shiftr (u8 b0) 1) 0x07 in
  b1 ← index bytes 1;
  let b := u8 b1 in
  b2 ← index bytes 2;
  let c := Z.land (Z.shiftr (u8 b2) 1) 0x7f in
  b3 ← index bytes 3;
  let d := u8 b3 in
  b4 ← index bytes 4;
  let e := Z.land (Z.shiftr (u8 b4) 1) 0x7f in
  Ret (Z.lor (Z.lor (Z.lor (Z.lor (shl 64 a 30) (shl 64 b 22)) (shl 64 c 15))
                (shl 64 d 7)) e).

(** [CheckLength] checks the length of the byte array to avoid index out of
    bound panics. *)
Definition CheckLength (byteArray : list byte) (name : string) (min : Z) : bool :=
  if len byteArray <? min then false else true.

Definition optionalFieldsExist (pes : PESHeader) : bool :=
  if bool_decide (streamId pes = STREAM_ID_PADDNG_STREAM)
     || bool_decide (streamId pes = STREAM_ID_PRIVATE_STREAM_2)
     || bool_decide (streamId pes = STREAM_ID_ECM_STREAM)
     || bool_decide (streamId pes = STREAM_ID_EMM_STREAM)
     || bool_decide (streamId pes = STREAM_ID_DSM_CC_STREAM)
     || bool_decide (streamId pes = STREAM_ID_ITU_T_H222_1_TYPE_E)
     || bool_decide (streamId pes = STREAM_ID_PROGRAM_STREAM_DIRECTORY)
  then false
  else true.

Definition PacketStartCodePrefix (pes : PESHeader) : Z := packetStartCodePrefix pes.
Definition StreamId (pes : PESHeader) : Z := streamId pes.
Definition PTS (pes : PESHeader) : Z := pts pes.
Definition DTS (pes : PESHeader) : Z := dts pes.
Definition Data (pes : PESHeader) : list byte := data pes.
Definition HasPTS (pes : PESHeader) : bool :=
  negb (Z.land (ptsDtsIndicator pes) PTS_DTS_INDICATOR_ONLY_PTS =? 0).
Definition HasDTS (pes : PESHeader) : bool :=
  ptsDtsIndicator pes =? PTS_DTS_INDICATOR_BOTH.
Definition PacketSize (pes : PESHeader) : Z :=
  pesPacketLength pes - (dataStartIndex pes - 6).
Definition DataAligned (pes : PESHeader) : bool := dataAlignment pes.

(** ** Metadata values (ivsmeta.go) *)

Definition NUL : ascii := "000"%char.

(** [strings.Split(s, sep)] for a separator of one byte: the segments
    between the occurrences of [sep], one more than there are occurrences. *)
Fixpoint strings_Split (s : string) (sep : ascii) : list string :=
  match s with
  | EmptyString => [EmptyString]
  | String c s' =>
      if decide (c = sep) then EmptyString :: strings_Split s' sep
      else match strings_Split s' sep with
           | seg :: segs => String c seg :: segs
           | [] => [String c EmptyString]
           end
  end.

(** [Value] wraps ID3 track values that have a [Prefix] and then the actual
    [Value] separated by a NUL character.  The field [Value] of the source
    is [Value_], the record having the name. *)
Record Value : Type := mkValue { Prefix : string; Value_ : string }.

Definition parseValue (v : string) : Value :=
  let split := strings_Split v NUL in
  match split with
  | [s0; s1] => {| Prefix := s0; Value_ := s1 |}
  | _ => {| Prefix := EmptyString; Value_ := v |}
  end.

(** The number of NUL bytes of a string. *)
Fixpoint count_NUL (s : string) : nat :=
  match s with
  | EmptyString => 0
  | String c s' => (if decide (c = NUL) then 1 else 0) + count_NUL s'
  end.

(** [MetaInfo] contains the ID3 metadata plus the PTS. *)
Record MetaInfo : Type := mkMetaInfo {
  mi_PTS : Z;
  mi_MetaData : gmap string Value
}.

Record MetaOptional : Type := mkMetaOptional {
  mo_Error : option error;
  mo_MetaInfo : option MetaInfo
}.

(** ** Input *)

(** An [io.Reader] over a finite input: the bytes it still delivers, and
    the error its [Read] reports once they are exhausted ([io_EOF] for a
    regular end of input, anything else for a failing source). *)
Record Reader : Type := mkReader {
  rd_data : list byte;
  rd_end : error
}.

(** [io.ReadFull(r, buf)] with [len(buf) = n]: [n] bytes, or the error that
    stopped the read; [io.ErrUnexpectedEOF] when the input ends after some
    but not all bytes. *)
Definition io_ReadFull (r : Reader) (n : nat) : (list byte + error) * Reader :=
  if decide (n ≤ length (rd_data r))%nat
  then (inl (take n (rd_data r)), mkReader (drop n (rd_data r)) (rd_end r))
  else (inr (match rd_data r with
             | [] => rd_end r
             | _ :: _ => if decide (rd_end r = io_EOF) then io_ErrUnexpectedEOF
                         else rd_end r
             end),
        mkReader [] (rd_end r)).

(** The read errors on which the packet loop ends the stream regularly. *)
Definition end_of_input (err : error) : bool :=
  errors_Is err io_EOF || errors_Is err io_ErrUnexpectedEOF.

(** A transport packet: [packet.Packet], an array of 188 bytes. *)
Definition Packet : Type := list byte.
Definition packet_PacketSize : nat := 188.

(** ** PES accumulator (part_000) *)

(** [PESAccumulator] accumulates packets starting from a PES packet up until
    the size specified by the PES header. *)
Record PESAccumulator : Type := mkPESAccumulator {
  pa_PESHeader : option PESHeader;
  pa_packetSize : Z;
  pa_Data : list byte
}.

(** [&PESAccumulator{}] *)
Definition new_PESAccumulator : PESAccumulator := mkPESAccumulator None 0 [].

(** The accumulator that has parsed the header [pes] and holds the bytes
    [d]. *)
Definition holding (pes : PESHeader) (d : list byte) : PESAccumulator :=
  mkPESAccumulator (Some pes) (PacketSize pes) d.

Definition checkDone (pa : PESAccumulator) : go (bool * option error) :=
  if len (pa_Data pa) >? pa_packetSize pa
  then Ret (true, Some (ErrOverrun (pa_packetSize pa) (len (pa_Data pa))))
  else match pa_PESHeader pa with
       | None => Panic NilDereference
       | Some pes => Ret (bool_decide (len (pa_Data pa) = PacketSize pes), None)
       end.

(** What one [Write] reported: done, without an error. *)
Definition reports_done (r : bool * option error) : bool :=
  match r with
  | (true, None) => true
  | _ => false
  end.

(** How many of the reports are a done. *)
Definition count_done (rs : list (bool * option error)) : nat :=
  length (List.filter reports_done rs).

(** What one [Write] reported ends the accumulator's life: done or error. *)
Definition terminal (r : bool * option error) : bool :=
  match r with
  | (false, None) => false
  | _ => true
  end.

(** ** Sample collaborators

    Simple stand-ins for the functions of the other packages, used where a
    property is evaluated on concrete packets: a packet is a 4-byte
    transport header followed by its payload, the PID is the low 13 bits of
    header bytes 1 and 2, and a payload starts a PES unit when it begins
    with the start code prefix [00 00 01]. *)

Definition sample_ExtractTime (f : list byte) : Z :=
  match ExtractTime f with Ret t => t | Panic _ => 0 end.

Definition sample_Payload (pkt : Packet) : list byte + error :=
  if decide (length pkt ≤ 4)%nat then inr (errors_New "packet has no payload")
  else inl (drop 4 pkt).

Definition sample_PESHeader (pkt : Packet) : list byte + error :=
  match drop 4 pkt with
  | (x00 :: x00 :: x01 :: _) as pesBytes => inl pesBytes
  | _ => inr (errors_New "packet has no PES header")
  end.

Definition sample_PID (pkt : Packet) : Z :=
  match pkt with
  | _ :: b1 :: b2 :: _ => Z.lor (Z.shiftl (Z.land (u8 b1) 0x1f) 8) (u8 b2)
  | _ => 0
  end.

Definition sample_ReadID3 (b : list byte) : gmap string string + error :=
  match b with
  | x49 :: x44 :: x33 :: _ =>
      inl {[ "TXXX"%string := ("PFX" +:+ String NUL "payload")%string ]}
  | _ => inr (errors_New "no ID3 header")
  end.

Definition sample_getStreamPID (r : Reader) : (Z + error) * Reader :=
  (inl 256, r).

(** Sample packets.  [sample_first] starts a unit of stream 256: a PES
    header of stream identifier [BD] with declared length 13, a PTS of 90000
    and the two trailing bytes [49 44]; [sample_header] is that header
    parsed.  [sample_zero] carries a header with declared length 0 and an
    empty optional header region, [sample_zero_header]. *)
Definition sample_ts : list byte := [x47; x41; x00; x10].

Definition sample_pesBytes : list byte :=
  [x00; x00; x01; xbd; x00; x0d; x84; x80; x05;
   x21; x00; x05; xbf; x21; x49; x44].

Definition sample_first : Packet := sample_ts ++ sample_pesBytes.

Definition sample_header : PESHeader :=
  mkPESHeader 1 true 189 13 14 2 90000 0 [x49; x44].

Definition sample_zero_pesBytes : list byte :=
  [x00; x00; x01; xbd; x00; x00; x80; x00; x00].

Definition sample_zero : Packet := sample_ts ++ sample_zero_pesBytes.

Definition sample_zero_header : PESHeader :=
  mkPESHeader 1 false 189 0 9 0 0 0 [].

(** A packet of 188 bytes that holds a whole unit: declared length 178, a
    PTS of 90000, and 170 bytes of payload that start with [49 44 33]. *)
Definition sample_unit : Packet :=
  sample_ts
  ++ [x00; x00; x01; xbd; x00; xb2; x84; x80; x05; x21; x00; x05; xbf; x21]
  ++ [x49; x44; x33] ++ replicate 167 x00.

(** The record of [sample_unit] under the sample collaborators. *)
Definition sample_record : MetaInfo :=
  mkMetaInfo 90000 {[ "TXXX"%string := mkValue "PFX" "payload" ]}.

(** ** The stream locator (ivsmeta.go) *)

Definition IVSMetadataStreamType : Z := 21.

Section Locator.

(** The program tables of package psi: [psi.ReadPAT] and [psi.ReadPMT] read
    a table off the input and leave the reader behind it.  [ProgramMap]
    gives the entries of [pat.ProgramMap()] in the order in which the
    [range] of [getStreamPID] visits them, an order Go does not fix. *)
Variables PAT PMT ES : Type.
Variable psi_ReadPAT : Reader → (PAT + error) * Reader.
Variable ProgramMap : PAT → list (Z * Z).
Variable psi_ReadPMT : Reader → Z → (PMT + error) * Reader.
Variable ElementaryStreams : PMT → list ES.
Variable StreamType : ES → Z.
Variable ElementaryPid : ES → Z.

(** The inner loop of [getStreamPID], over the streams of one program. *)
Fixpoint getStreamPID_streams (ess : list ES) (metadataPID : Z) : Z :=
  match ess with
  | [] => metadataPID
  | es :: ess' =>
      if bool_decide (StreamType es = IVSMetadataStreamType)
      then ElementaryPid es
      else getStreamPID_streams ess' metadataPID
  end.

(** The outer loop of [getStreamPID], over the program map. *)
Fixpoint getStreamPID_programs (r : Reader) (pmap : list (Z * Z))
    (metadataPID : Z) : (Z + error) * Reader :=
  match pmap with
  | [] => (inl metadataPID, r)
  | (_, pid) :: pmap' =>
      match psi_ReadPMT r pid with
      | (inr err, r') => (inr (Wrap "failed ReadPMT" err), r')
      | (inl pmt, r') =>
          let metadataPID :=
            getStreamPID_streams (ElementaryStreams pmt) metadataPID in
          if bool_decide (metadataPID ≠ 0) then (inl metadataPID, r')
          else getStreamPID_programs r' pmap' metadataPID
      end
  end.

(** [getStreamPID] finds the metadata stream PID from the program map. *)
Definition getStreamPID (r : Reader) : (Z + error) * Reader :=
  match psi_ReadPAT r with
  | (inr err, r') => (inr (Wrap "failed ReadPAT" err), r')
  | (inl pat, r') =>
      match getStreamPID_programs r' (ProgramMap pat) 0 with
      | (inr err, r'') => (inr err, r'')
      | (inl metadataPID, r'') =>
          if bool_decide (metadataPID = 0)
          then (inr (errors_New "no metadata stream found"), r'')
          else (inl metadataPID, r'')
      end
  end.

End Locator.

(** More sample packets of 188 bytes: [sample_other] belongs to stream 17,
    and [sample_headless] to stream 256 without starting a PES unit. *)
Definition sample_other : Packet := [x47; x40; x11; x10] ++ replicate 184 xff.

Definition sample_headless : Packet := sample_ts ++ replicate 184 xff.

(** Sample program tables: one program, whose table lists a stream of type
    27 with PID 257 and then a stream of type 21 with PID 256; and an input
    on which no program association table can be read. *)
Definition sample_ReadPAT (r : Reader) : (list (Z * Z) + error) * Reader :=
  (inl [(1, 4096)], r).

Definition sample_ReadPMT (r : Reader) (pid : Z)
  : (list (Z * Z) + error) * Reader :=
  if bool_decide (pid = 4096) then (inl [(27, 257); (21, 256)], r)
  else (inr (errors_New "no such program"), r).

Definition sample_ReadPAT_empty (r : Reader) : (list (Z * Z) + error) * Reader :=
  (inr io_EOF, r).

(** A value together with the equation that names it, for definitions by
    cases that keep what a call returned. *)
Definition inspect {A} (a : A) : {b : A | a = b} := exist _ a eq_refl.

Section Collaborators.

(** [gots.ExtractTime]: the time stamp of a 5-byte field. *)
Variable gots_ExtractTime : list byte → Z.
(** [packet.PESHeader(pkt)]: the bytes of the packet from the PES start
    code on, or an error when the packet does not start a PES unit. *)
Variable packet_PESHeader : Packet → list byte + error.
(** [pkt.Payload()] and [pkt.PID()]. *)
Variable Payload : Packet → list byte + error.
Variable PID : Packet → Z.
(** [easyid3.ReadID3]: the tags of an ID3 block. *)
Variable easyid3_ReadID3 : list byte → gmap string string + error.
(** [getStreamPID]: the PID of the metadata stream, read off the program
    tables at the start of the input; it leaves the reader behind them. *)
Variable getStreamPID : Reader → (Z + error) * Reader.

(** [NewPESHeader] creates a new PES header with the provided bytes. *)
Definition NewPESHeader (pesBytes : list byte) : go (PESHeader * option error) :=
  let pes := new_PESHeader in
  if negb (CheckLength pesBytes "PES" 6)
  then Ret (pes, Some (ErrTooShort (len pesBytes)))
  else
    b0 ← index pesBytes 0;
    b1 ← index pesBytes 1;
    b2 ← index pesBytes 2;
    let pes := set_packetStartCodePrefix
                 (Z.lor (Z.lor (shl 32 (u8 b0) 16) (shl 32 (u8 b1) 8)) (u8 b2)) pes in
    b3 ← index pesBytes 3;
    let pes := set_streamId (u8 b3) pes in
    b4 ← index pesBytes 4;
    b5 ← index pesBytes 5;
    let pes := set_pesPacketLength (Z.lor (shl 16 (u8 b4) 8) (u8 b5)) pes in
    b6 ← index pesBytes 6;
    let pes := set_dataAlignment (negb (Z.land (u8 b6) 0x04 =? 0)) pes in
    let pes := set_dataStartIndex 6 pes in
    pes ← (if optionalFieldsExist pes && CheckLength pesBytes "Optional Fields" 9
           then
             b7 ← index pesBytes 7;
             let ptsDtsIndicator' := Z.shiftr (Z.land (u8 b7) 0xc0) 6 in
             pesHeaderLength ← index pesBytes 8;
             let pes := set_dataStartIndex (9 + u8 pesHeaderLength) pes in
             let pes := set_ptsDtsIndicator ptsDtsIndicator' pes in
             if negb (ptsDtsIndicator' =? PTS_DTS_INDICATOR_NONE)
                && CheckLength pesBytes "PTS" 14
             then
               f ← slice pesBytes 9 14;
               let pes := set_pts (gots_ExtractTime f) pes in
               if (ptsDtsIndicator pes =? PTS_DTS_INDICATOR_BOTH)
                  && CheckLength pesBytes "DTS" 19
               then
                 f ← slice pesBytes 14 19;
                 Ret (set_dts (gots_ExtractTime f) pes)
               else Ret pes
             else Ret pes
           else Ret pes);
    pes ← (if len pesBytes >? dataStartIndex pes
           then
             d ← slice pesBytes (Z.to_nat (dataStartIndex pes)) (length pesBytes);
             Ret (set_data d pes)
           else Ret pes);
    Ret (pes, None).

Definition Write (pa : PESAccumulator) (pkt : Packet)
  : go (PESAccumulator * (bool * option error)) :=
  match pa_PESHeader pa with
  | None =>
      match packet_PESHeader pkt with
      | inr err =>
          Ret (pa, (false, Some (Wrap "first packet must contain a PES Header" err)))
      | inl pesBytes =>
          '(pes, err) ← NewPESHeader pesBytes;
          let pa := mkPESAccumulator (Some pes) (pa_packetSize pa) (pa_Data pa) in
          match err with
          | Some err => Ret (pa, (false, Some (Wrap "failed PES parse" err)))
          | None =>
              let pa := mkPESAccumulator (pa_PESHeader pa) (pa_packetSize pa) (Data pes) in
              let pa := mkPESAccumulator (pa_PESHeader pa) (PacketSize pes) (pa_Data pa) in
              r ← checkDone pa;
              Ret (pa, r)
          end
      end
  | Some _ =>
      match Payload pkt with
      | inr err => Ret (pa, (false, Some (Wrap "failed getting payload" err)))
      | inl payload =>
          let pa := mkPESAccumulator (pa_PESHeader pa) (pa_packetSize pa)
                      (pa_Data pa ++ payload) in
          r ← checkDone pa;
          Ret (pa, r)
      end
  end.

(** The life of one accumulator, as its callers drive it: packets are
    written in order until a [Write] reports done or an error, after which
    the accumulator is not written to again.  The result is the final
    accumulator and what each [Write] reported. *)
Fixpoint feed (pa : PESAccumulator) (pkts : list Packet)
  : go (PESAccumulator * list (bool * option error)) :=
  match pkts with
  | [] => Ret (pa, [])
  | pkt :: rest =>
      '(pa', r) ← Write pa pkt;
      if terminal r then Ret (pa', [r])
      else '(pa'', rs) ← feed pa' rest; Ret (pa'', r :: rs)
  end.

(** The payloads of a sequence of packets, one chunk for each. *)
Definition payloads (pkts : list Packet) (chunks : list (list byte)) : Prop :=
  Forall2 (λ pkt c, Payload pkt = inl c) pkts chunks.

(** The collecting states: the new accumulator, and every accumulator a
    [Write] on a collecting one left without reporting done or an error. *)
Inductive collecting : PESAccumulator → Prop :=
| collecting_new : collecting new_PESAccumulator
| collecting_Write pa pkt pa' :
    collecting pa → Write pa pkt = Ret (pa', (false, None)) → collecting pa'.

(** ** The pipeline (ivsmeta.go) *)

Definition parseID3 (pesAccumulator : PESAccumulator) : go (MetaInfo + error) :=
  match easyid3_ReadID3 (pa_Data pesAccumulator) with
  | inr err => Ret (inr (Wrap "failed ID3 parse" err))
  | inl tags =>
      let md := parseValue <$> tags in
      match pa_PESHeader pesAccumulator with
      | None => Panic NilDereference
      | Some pes => Ret (inl (mkMetaInfo (PTS pes) md))
      end
  end.

(** The message [errInfoChan] sends before it closes the channel. *)
Definition errInfoChan (err : error) : MetaOptional :=
  mkMetaOptional (Some err) None.

(** One turn of the loop of [readPacketStream] after its read succeeded:
    the loop goes on with an accumulator, or the function returns; either
    way with the messages sent on the channel in this turn. *)
Inductive turn : Type :=
| Continue (pa : PESAccumulator) (sent : list MetaOptional)
| Return (sent : list MetaOptional).

Definition readPacketStream_packet (metadataPID : Z)
    (pesAccumulator : PESAccumulator) (pkt : Packet) : go turn :=
  if bool_decide (PID pkt = metadataPID) then
    '(pa, (done, err)) ← Write pesAccumulator pkt;
    match err with
    | Some err =>
        Ret (Return [errInfoChan (Wrap "failed accumulation, bailing" err)])
    | None =>
        if done : bool then
          r ← parseID3 pa;
          match r with
          | inr err => Ret (Return [errInfoChan err])
          | inl mi =>
              Ret (Continue new_PESAccumulator [mkMetaOptional None (Some mi)])
          end
        else Ret (Continue pa [])
    end
  else Ret (Continue pesAccumulator []).

(** The loop of [readPacketStream]; its result is the sequence of messages
    sent on [infoChan] up to the close of the channel. *)
Equations? readPacketStream_loop (metadataPID : Z) (r : Reader)
    (pesAccumulator : PESAccumulator) : go (list MetaOptional)
    by wf (length (rd_data r)) lt :=
  readPacketStream_loop metadataPID r pesAccumulator
    with inspect (io_ReadFull r packet_PacketSize) := {
    | exist _ (inr err, _) _ =>
        if errors_Is err io_EOF || errors_Is err io_ErrUnexpectedEOF
        then Ret [errInfoChan io_EOF]
        else Ret [errInfoChan (Wrap "failed packet read" err)]
    | exist _ (inl pkt, r') Hread
        with readPacketStream_packet metadataPID pesAccumulator pkt := {
        | Panic p => Panic p
        | Ret (Return sent) => Ret sent
        | Ret (Continue pa sent) =>
            rest ← readPacketStream_loop metadataPID r' pa;
            Ret (sent ++ rest) } }.
Proof.
  unfold io_ReadFull in Hread. case_decide; [|discriminate].
  injection Hread as _ <-. simpl. rewrite length_drop.
  unfold packet_PacketSize in *. lia.
Qed.

Definition readPacketStream (r : Reader) (metadataPID : Z) : go (list MetaOptional) :=
  readPacketStream_loop metadataPID r new_PESAccumulator.

(** [ReadStream]: the messages the producer sends on [infoChan]. *)
Definition ReadStream (r : Reader) : go (list MetaOptional) :=
  match getStreamPID r with
  | (inr err, _) => Ret [errInfoChan err]
  | (inl metadataPID, r') => readPacketStream r' metadataPID
  end.

(** The [range] loop of [Read] over the messages of the channel. *)
Fixpoint Read_range (infoChan : list MetaOptional) (meta : list (option MetaInfo))
  : list (option MetaInfo) * option error :=
  match infoChan with
  | [] => (meta, None)
  | mo :: infoChan' =>
      match mo_Error mo with
      | Some err => if errors_Is err io_EOF then (meta, None) else (meta, Some err)
      | None => Read_range infoChan' (meta ++ [mo_MetaInfo mo])
      end
  end.

Definition Read (r : Reader) : go (list (option MetaInfo) * option error) :=
  infoChan ← ReadStream r;
  Ret (Read_range infoChan []).

(** The turns of the loop over a sequence of packets that were read: the
    messages sent, and the accumulator the loop goes on with unless the
    function returned. *)
Fixpoint readPacketStream_packets (metadataPID : Z) (pesAccumulator : PESAccumulator)
    (pkts : list Packet) : go (list MetaOptional * option PESAccumulator) :=
  match pkts with
  | [] => Ret ([], Some pesAccumulator)
  | pkt :: pkts' =>
      t ← readPacketStream_packet metadataPID pesAccumulator pkt;
      match t with
      | Return sent => Ret (sent, None)
      | Continue pa sent =>
          '(rest, pa') ← readPacketStream_packets metadataPID pa pkts';
          Ret (sent ++ rest, pa')
      end
  end.


(** ** The blocking pipeline (ivsmeta.go, second file) *)

(** One turn of the loop of [readPackets] after its read succeeded: the
    loop goes on with an accumulator and the records so far ([inl]), or the
    function returns its result ([inr]).  What the function prints on a
    decoding error is not part of the model. *)
Definition readPackets_packet (metadataPID : Z) (pesAccumulator : PESAccumulator)
    (meta : list (option MetaInfo)) (pkt : Packet)
  : go (PESAccumulator * list (option MetaInfo)
        + list (option MetaInfo) * option error) :=
  if bool_decide (PID pkt = metadataPID) then
    '(pa, (done, err)) ← Write pesAccumulator pkt;
    match err with
    | Some err =>
        Ret (inr (meta, Some (Wrap "failed accumulation, bailing" err)))
    | None =>
        if done : bool then
          r ← parseID3 pa;
          match r with
          | inr err => Ret (inr (meta, Some err))
          | inl mi => Ret (inl (new_PESAccumulator, meta ++ [Some mi]))
          end
        else Ret (inl (pa, meta))
    end
  else Ret (inl (pesAccumulator, meta)).

Equations? readPackets_loop (metadataPID : Z) (r : Reader)
    (pesAccumulator : PESAccumulator) (meta : list (option MetaInfo))
    : go (list (option MetaInfo) * option error)
    by wf (length (rd_data r)) lt :=
  readPackets_loop metadataPID r pesAccumulator meta
    with inspect (io_ReadFull r packet_PacketSize) := {
    | exist _ (inr err, _) _ =>
        if errors_Is err io_EOF || errors_Is err io_ErrUnexpectedEOF
        then Ret (meta, None)
        else Ret (meta, Some (Wrap "failed packet read" err))
    | exist _ (inl pkt, r') Hread
        with readPackets_packet metadataPID pesAccumulator meta pkt := {
        | Panic p => Panic p
        | Ret (inr result) => Ret result
        | Ret (inl (pa, meta')) => readPackets_loop metadataPID r' pa meta' } }.
Proof.
  unfold io_ReadFull in Hread. case_decide; [|discriminate].
  injection Hread as _ <-. simpl. rewrite length_drop.
  unfold packet_PacketSize in *. lia.
Qed.

Definition readPackets (r : Reader) (metadataPID : Z)
  : go (list (option MetaInfo) * option error) :=
  readPackets_loop metadataPID r new_PESAccumulator [].

(** What [Read] over the channel makes of a result of [readPackets]: an error
    that is or wraps [io.EOF] becomes no error. *)
Definition Read_error (result : list (option MetaInfo) * option error)
  : list (option MetaInfo) * option error :=
  match result with
  | (meta, Some err) => (meta, if errors_Is err io_EOF then None else Some err)
  | (meta, None) => (meta, None)
  end.

(** [Value.String]: [fmt.Sprintf("%s/%s", v.Prefix, v.Value)]. *)
Definition Value_String (v : Value) : string :=
  (Prefix v +:+ "/" +:+ Value_ v)%string.

(** The packets [pkts] carry one unit of the metadata stream, whose record
    is [mi]: each belongs to the stream; the first has a PES header that
    parses; the others have non-empty payloads; the bytes behind the header
    and the payloads add up to the remaining size of the header; and the
    decoder reads off them the tags of which [mi] holds the split values,
    next to the PTS of the header. *)
Definition carries (metadataPID : Z) (pkts : list Packet) (mi : MetaInfo) : Prop :=
  ∃ first rest pesBytes h chunks tags,
    pkts = first :: rest
    ∧ Forall (λ pkt, PID pkt = metadataPID) pkts
    ∧ packet_PESHeader first = inl pesBytes
    ∧ NewPESHeader pesBytes = Ret (h, None)
    ∧ payloads rest chunks
    ∧ Forall (λ c, c ≠ []) chunks
    ∧ len (Data h) + len (concat chunks) = PacketSize h
    ∧ easyid3_ReadID3 (Data h ++ concat chunks) = inl tags
    ∧ mi = mkMetaInfo (PTS h) (parseValue <$> tags).

(** * Properties *)

(** ** Bytes and shifts *)

Lemma u8_range (b : byte) : 0 ≤ u8 b < 256.
Proof.
  unfold u8. pose proof (Byte.to_N_bounded b). lia.
Qed.

Lemma shl_small (w x n : Z) :
  0 ≤ n → 0 ≤ x → x * 2 ^ n < 2 ^ w → shl w x n = Z.shiftl x n.
Proof.
  intros Hn Hx Hlt. unfold shl. rewrite Z.shiftl_mul_pow2 by done.
  apply Z.mod_small. split; [|done].
  apply Z.mul_nonneg_nonneg; [done|]. apply Z.pow_nonneg. lia.
Qed.

Lemma shiftl_range (x n k : Z) :
  0 ≤ n → 0 ≤ k → 0 ≤ x < 2 ^ k → 0 ≤ Z.shiftl x n < 2 ^ (k + n).
Proof.
  intros Hn Hk [Hx Hlt]. rewrite Z.shiftl_mul_pow2 by done.
  rewrite Z.pow_add_r by done.
  assert (0 < 2 ^ n) by (apply Z.pow_pos_nonneg; lia). nia.
Qed.

Lemma lor_range (a b n : Z) :
  0 < n → 0 ≤ a < 2 ^ n → 0 ≤ b < 2 ^ n → 0 ≤ Z.lor a b < 2 ^ n.
Proof.
  intros Hn [Ha Ha'] [Hb Hb'].
  assert (Hnn : 0 ≤ Z.lor a b) by (apply Z.lor_nonneg; done).
  split; [done|].
  destruct (Z.eq_dec (Z.lor a b) 0) as [->|Hne].
  { apply Z.pow_pos_nonneg; lia. }
  apply Z.log2_lt_pow2; [lia|].
  rewrite Z.log2_lor by done.
  assert (Hlog : ∀ x, 0 ≤ x < 2 ^ n → Z.log2 x < n).
  { intros x [Hx Hx']. destruct (Z.eq_dec x 0) as [->|Hx0]; [done|].
    apply Z.log2_lt_pow2; lia. }
  apply Z.max_lub_lt; apply Hlog; done.
Qed.

Lemma pow2_le_lt (x k n : Z) : 0 ≤ k ≤ n → 0 ≤ x < 2 ^ k → 0 ≤ x < 2 ^ n.
Proof.
  intros Hkn [Hx Hlt]. split; [done|].
  eapply Z.lt_le_trans; [done|]. apply Z.pow_le_mono_r; lia.
Qed.

(** The three masked fragments of a time stamp field. *)
Lemma fragment3_range (b : byte) : 0 ≤ Z.land (Z.shiftr (u8 b) 1) 0x07 < 2 ^ 3.
Proof.
  change 0x07 with (Z.ones 3). rewrite Z.land_ones by done.
  apply Z.mod_pos_bound. done.
Qed.

Lemma fragment7_range (b : byte) : 0 ≤ Z.land (Z.shiftr (u8 b) 1) 0x7f < 2 ^ 7.
Proof.
  change 0x7f with (Z.ones 7). rewrite Z.land_ones by done.
  apply Z.mod_pos_bound. done.
Qed.

(** ** C1: the bit layout of [ExtractTime] *)

(** C1. On every 5-byte buffer [ExtractTime] returns (without a panic) the
    value [(a<<30)|(b<<22)|(c<<15)|(d<<7)|e] computed on unbounded integers,
    where [a = (b0>>1)&0x07], [b = b1], [c = (b2>>1)&0x7f], [d = b3] and
    [e = (b4>>1)&0x7f]; that value fits 33 bits; and the field
    [21 00 05 BF 21] gives 90000. *)
Theorem ExtractTime_layout (b0 b1 b2 b3 b4 : byte) :
  let a := Z.land (Z.shiftr (u8 b0) 1) 0x07 in
  let b := u8 b1 in
  let c := Z.land (Z.shiftr (u8 b2) 1) 0x7f in
  let d := u8 b3 in
  let e := Z.land (Z.shiftr (u8 b4) 1) 0x7f in
  let t := Z.lor (Z.lor (Z.lor (Z.lor (Z.shiftl a 30) (Z.shiftl b 22))
                           (Z.shiftl c 15)) (Z.shiftl d 7)) e in
  ExtractTime [b0; b1; b2; b3; b4] = Ret t
  ∧ 0 ≤ t < 2 ^ 33
  ∧ ExtractTime [x21; x00; x05; xbf; x21] = Ret 90000.
Proof.
  intros a b c d e t.
  pose proof (fragment3_range b0) as Ha. fold a in Ha.
  pose proof (u8_range b1) as Hb. fold b in Hb.
  pose proof (fragment7_range b2) as Hc. fold c in Hc.
  pose proof (u8_range b3) as Hd. fold d in Hd.
  pose proof (fragment7_range b4) as He. fold e in He.
  split; [|split].
  - unfold ExtractTime. cbn [index lookup list_lookup mbind go_bind].
    fold a b c d e. subst t. f_equal.
    rewrite !shl_small; try lia; done.
  - subst t.
    pose proof (shiftl_range a 30 3 ltac:(lia) ltac:(lia) Ha) as Ha'.
    pose proof (shiftl_range b 22 8 ltac:(lia) ltac:(lia) Hb) as Hb'.
    pose proof (shiftl_range c 15 7 ltac:(lia) ltac:(lia) Hc) as Hc'.
    pose proof (shiftl_range d 7 8 ltac:(lia) ltac:(lia) Hd) as Hd'.
    repeat apply lor_range; try lia;
      (eapply pow2_le_lt; [|eassumption]; lia).
  - vm_compute. reflexivity.
Qed.

(** ** C6: splitting a tag value *)

Lemma strings_Split_count (s : string) :
  length (strings_Split s NUL) = S (count_NUL s).
Proof.
  induction s as [|c s IH]; simpl; [done|].
  case_decide; simpl; [by rewrite IH|].
  destruct (strings_Split s NUL); simpl in *; done.
Qed.

Lemma strings_Split_no_NUL (s : string) :
  count_NUL s = 0%nat → strings_Split s NUL = [s].
Proof.
  induction s as [|c s IH]; simpl; [done|].
  case_decide; [done|]. intros H0. by rewrite IH.
Qed.

Lemma strings_Split_one_NUL (s : string) :
  count_NUL s = 1%nat →
  ∃ p q, s = (p +:+ String NUL q)%string ∧ count_NUL p = 0%nat
         ∧ count_NUL q = 0%nat ∧ strings_Split s NUL = [p; q].
Proof.
  induction s as [|c s IH]; simpl; [done|].
  case_decide as Hc.
  - intros Hs. exists EmptyString, s. subst c. simpl.
    rewrite strings_Split_no_NUL by lia. repeat split; lia.
  - intros Hs. destruct (IH Hs) as (p & q & -> & Hp & Hq & Hsplit).
    exists (String c p), q. rewrite Hsplit. simpl.
    rewrite decide_False by done. done.
Qed.

(** C6. [parseValue] splits on the NUL byte: a value with exactly one NUL
    byte is [p ++ NUL ++ q], the split has the two segments [p] and [q], and
    the result is prefix [p], value [q]; with any other number of NUL bytes
    (none, two or more) the split does not have two segments and the result
    is the empty prefix and the value unchanged.  The three documented
    examples hold. *)
Theorem parseValue_split (v : string) :
  length (strings_Split v NUL) = S (count_NUL v)
  ∧ (count_NUL v = 1%nat →
     ∃ p q, v = (p +:+ String NUL q)%string
            ∧ strings_Split v NUL = [p; q]
            ∧ parseValue v = {| Prefix := p; Value_ := q |})
  ∧ (count_NUL v ≠ 1%nat →
     parseValue v = {| Prefix := EmptyString; Value_ := v |})
  ∧ parseValue ("INTENSITY" +:+ String NUL "high")
    = {| Prefix := "INTENSITY"; Value_ := "high" |}
  ∧ parseValue "high" = {| Prefix := EmptyString; Value_ := "high" |}
  ∧ parseValue ("a" +:+ String NUL ("b" +:+ String NUL "c"))
    = {| Prefix := EmptyString;
         Value_ := "a" +:+ String NUL ("b" +:+ String NUL "c") |}.
Proof.
  split; [apply strings_Split_count|]. split; [|split].
  - intros H1. destruct (strings_Split_one_NUL v H1) as (p & q & Hv & _ & _ & Hs).
    exists p, q. unfold parseValue. rewrite Hs. done.
  - intros Hne. pose proof (strings_Split_count v) as Hlen.
    unfold parseValue.
    destruct (strings_Split v NUL) as [|s0 [|s1 [|s2 l]]]; simpl in Hlen; try done.
    lia.
  - repeat split; vm_compute; reflexivity.
Qed.

(** ** The PES header parser *)

Lemma CheckLength_decide (s : list byte) (name : string) (min : Z) :
  CheckLength s name min = bool_decide (min ≤ len s).
Proof.
  unfold CheckLength. case_bool_decide; destruct (Z.ltb_spec (len s) min); done || lia.
Qed.

Lemma index_lt (s : list byte) (i : nat) :
  (i < length s)%nat → ∃ x, s !! i = Some x ∧ index s i = Ret x.
Proof.
  intros Hi. destruct (lookup_lt_is_Some_2 s i Hi) as [x Hx].
  exists x. unfold index. by rewrite Hx.
Qed.

Lemma slice_in_range (s : list byte) (lo hi : nat) :
  (lo ≤ hi ≤ length s)%nat → slice s lo hi = Ret (take (hi - lo) (drop lo s)).
Proof.
  intros H. unfold slice. by rewrite decide_True.
Qed.



Ltac len_lia := unfold len in *; simpl length in *; lia.

Ltac header_simpl :=
  cbn [packetStartCodePrefix dataAlignment streamId pesPacketLength
       dataStartIndex ptsDtsIndicator pts dts data
       set_packetStartCodePrefix set_dataAlignment set_streamId
       set_pesPacketLength set_dataStartIndex set_ptsDtsIndicator
       set_pts set_dts set_data new_PESHeader
       mbind go_bind andb negb] in *.

Ltac header_step :=
  match goal with
  | |- context [index ?s ?i] =>
      let H := fresh "Hidx" in
      let x := fresh "x" in
      destruct (index_lt s i) as (x & _ & H);
      [len_lia | rewrite H; clear H; pose proof (u8_range x)]
  | |- context [slice ?s ?lo ?hi] =>
      rewrite (slice_in_range s lo hi) by len_lia
  | |- context [bool_decide ?P] => case_bool_decide
  | |- context [?a >? ?b] => destruct (Z.gtb_spec a b)
  | |- context [if ?c then _ else _] => destruct c eqn:?
  end; header_simpl.

Lemma NewPESHeader_long (b0 b1 b2 b3 b4 b5 b6 : byte) (rest : list byte) :
  let b := b0 :: b1 :: b2 :: b3 :: b4 :: b5 :: b6 :: rest in
  ∃ h, NewPESHeader b = Ret (h, None)
       ∧ streamId h = u8 b3
       ∧ pesPacketLength h = Z.lor (shl 16 (u8 b4) 8) (u8 b5)
       ∧ dataAlignment h = negb (Z.land (u8 b6) 0x04 =? 0)
       ∧ (dataStartIndex h = 6 ∨ 9 ≤ dataStartIndex h)
       ∧ (optionalFieldsExist h = false →
          dataStartIndex h = 6 ∧ ptsDtsIndicator h = 0 ∧ pts h = 0 ∧ dts h = 0)
       ∧ data h = (if len b >? dataStartIndex h
                   then drop (Z.to_nat (dataStartIndex h)) b else []).
Proof.
  intros b. subst b. unfold NewPESHeader.
  rewrite !CheckLength_decide.
  rewrite bool_decide_true by len_lia.
  cbn [negb index lookup list_lookup mbind go_bind].
  match goal with
  | |- context [optionalFieldsExist ?p] =>
      assert (Hsid : ∀ h, streamId h = u8 b3 →
                optionalFieldsExist h = optionalFieldsExist p)
        by (intros h Hh; unfold optionalFieldsExist; rewrite Hh; reflexivity);
      destruct (optionalFieldsExist p) eqn:Hopt
  end; header_simpl.
  all: repeat header_step.
  all: eexists; (split; [reflexivity|]); header_simpl.
  all: split_and!; try done; try lia.
  all: try (intros Hf; rewrite Hsid in Hf by done; done).
  all: match goal with
       | |- context [?a >? ?b] => destruct (Z.gtb_spec a b); try len_lia
       end.
  all: try done.
  all: rewrite take_ge; [done | rewrite length_drop; lia].
Qed.

(** The stream identifiers that never carry optional fields. *)
Lemma optionalFieldsExist_false (h : PESHeader) :
  optionalFieldsExist h = false ↔
  streamId h ∈ [STREAM_ID_PADDNG_STREAM; STREAM_ID_PRIVATE_STREAM_2;
                STREAM_ID_ECM_STREAM; STREAM_ID_EMM_STREAM;
                STREAM_ID_DSM_CC_STREAM; STREAM_ID_ITU_T_H222_1_TYPE_E;
                STREAM_ID_PROGRAM_STREAM_DIRECTORY].
Proof.
  unfold optionalFieldsExist. rewrite !elem_of_cons, elem_of_nil.
  repeat case_bool_decide; simpl; split; intros; first [done | tauto].
Qed.

Lemma NewPESHeader_short (b : list byte) :
  (length b < 6)%nat →
  NewPESHeader b = Ret (new_PESHeader, Some (ErrTooShort (len b))).
Proof.
  intros Hlen. unfold NewPESHeader. rewrite CheckLength_decide.
  rewrite bool_decide_false by len_lia. done.
Qed.

Lemma NewPESHeader_six (b : list byte) :
  length b = 6%nat → NewPESHeader b = Panic (IndexOutOfRange 6 6).
Proof.
  intros Hlen.
  destruct b as [|b0 [|b1 [|b2 [|b3 [|b4 [|b5 [|b6 rest]]]]]]]; try done.
Qed.

(** The parser returns on every buffer but those of exactly 6 bytes. *)
Lemma NewPESHeader_returns (b : list byte) :
  length b ≠ 6%nat → ∃ h err, NewPESHeader b = Ret (h, err).
Proof.
  intros Hlen. destruct (decide (length b < 6)%nat) as [Hlt|Hge].
  { eexists _, _. by apply NewPESHeader_short. }
  destruct b as [|b0 [|b1 [|b2 [|b3 [|b4 [|b5 [|b6 rest]]]]]]];
    simpl in *; try lia.
  destruct (NewPESHeader_long b0 b1 b2 b3 b4 b5 b6 rest) as (h & Hh & _).
  eauto.
Qed.

Lemma NewPESHeader_panics_iff (b : list byte) :
  panics (NewPESHeader b) = true ↔ length b = 6%nat.
Proof.
  split.
  - intros Hp. destruct (decide (length b = 6%nat)) as [|Hne]; [done|].
    destruct (NewPESHeader_returns b Hne) as (h & err & Hr).
    rewrite Hr in Hp. done.
  - intros Hlen. by rewrite NewPESHeader_six.
Qed.

(** A successful parse: the buffer has at least 7 bytes, the payload starts
    at offset 6 or at an offset of 9 or more, and the payload is what lies
    beyond that offset. *)
Lemma NewPESHeader_ok (b : list byte) (h : PESHeader) :
  NewPESHeader b = Ret (h, None) →
  (7 ≤ length b)%nat
  ∧ (dataStartIndex h = 6 ∨ 9 ≤ dataStartIndex h)
  ∧ (optionalFieldsExist h = false →
     dataStartIndex h = 6 ∧ ptsDtsIndicator h = 0 ∧ pts h = 0 ∧ dts h = 0
     ∧ data h = drop 6 b)
  ∧ (∀ b6, b !! 6%nat = Some b6 →
     dataAlignment h = negb (Z.land (u8 b6) 0x04 =? 0)).
Proof.
  intros Hh. destruct (decide (length b < 6)%nat) as [Hlt|Hge].
  { rewrite NewPESHeader_short in Hh by done. done. }
  destruct (decide (length b = 6)%nat) as [H6|Hne].
  { rewrite NewPESHeader_six in Hh by done. done. }
  destruct b as [|b0 [|b1 [|b2 [|b3 [|b4 [|b5 [|b6 rest]]]]]]];
    simpl in *; try lia.
  destruct (NewPESHeader_long b0 b1 b2 b3 b4 b5 b6 rest)
    as (h' & Hh' & Hsid & Hlen & Hal & Hdsi & Hopt & Hdata).
  rewrite Hh' in Hh. injection Hh as <-.
  split_and!; [lia|done| |].
  - intros Hf. destruct (Hopt Hf) as (H6 & Hi & Hp & Hd).
    split_and!; try done. rewrite Hdata, H6.
    destruct (Z.gtb_spec (len (b0 :: b1 :: b2 :: b3 :: b4 :: b5 :: b6 :: rest)) 6);
      [done|len_lia].
  - intros ? [= <-]. done.
Qed.

(** ** C9: buffers of fewer than 6 bytes *)

(** C9. On a buffer of fewer than 6 bytes [NewPESHeader] returns (without a
    panic) the zero header together with the length error; it never returns
    a header without an error for such a buffer. *)
Theorem NewPESHeader_too_short (b : list byte) :
  (length b < 6)%nat →
  NewPESHeader b = Ret (new_PESHeader, Some (ErrTooShort (len b)))
  ∧ ∀ h, NewPESHeader b ≠ Ret (h, None).
Proof.
  intros Hlen. rewrite NewPESHeader_short by done. split; [done|].
  intros h. congruence.
Qed.

(** ** C5: the read of byte 6 *)

(** C5 (code at the failing input). On the 6-byte buffer
    [00 00 01 BD 00 00] the length check passes and the read of byte index 6
    is out of range: the parser panics. *)
Theorem NewPESHeader_six_bytes_index_out_of_range :
  CheckLength [x00; x00; x01; xbd; x00; x00] "PES" 6 = true
  ∧ NewPESHeader [x00; x00; x01; xbd; x00; x00] = Panic (IndexOutOfRange 6 6).
Proof.
  split; reflexivity.
Qed.

(** ** C4: the data-alignment flag *)

(** C4 (code at the failing input). On [00 00 01 BE 00 01 04] the stream
    identifier is the padding stream, which has no optional fields, and the
    parsed header still has the data-alignment flag set, read from bit 2 of
    byte 6. *)
Theorem NewPESHeader_padding_stream_data_aligned :
  ∃ h, NewPESHeader [x00; x00; x01; xbe; x00; x01; x04] = Ret (h, None)
       ∧ StreamId h = STREAM_ID_PADDNG_STREAM
       ∧ optionalFieldsExist h = false
       ∧ DataAligned h = true.
Proof.
  eexists. split; [reflexivity|]. split_and!; reflexivity.
Qed.

(** ** C8: headers without optional fields *)

(** C8 (code at the failing input). On the 6-byte buffer
    [00 00 01 BE 00 00], whose stream identifier is the padding stream, the
    parser does not return a header with an empty payload: it panics. *)
Theorem NewPESHeader_padding_stream_six_bytes :
  u8 xbe = STREAM_ID_PADDNG_STREAM
  ∧ NewPESHeader [x00; x00; x01; xbe; x00; x00] = Panic (IndexOutOfRange 6 6).
Proof.
  split; reflexivity.
Qed.

(** ** The PES accumulator *)

Lemma len_app {A} (l k : list A) : len (l ++ k) = len l + len k.
Proof. unfold len. rewrite length_app. lia. Qed.

Lemma len_nonneg {A} (l : list A) : 0 ≤ len l.
Proof. unfold len. lia. Qed.

Lemma len_zero_nil {A} (l : list A) : len l = 0 → l = [].
Proof. unfold len. destruct l; simpl; [done|lia]. Qed.

(** [checkDone] on an accumulator that has its header. *)
Lemma checkDone_with_header (pa : PESAccumulator) (h : PESHeader) :
  pa_PESHeader pa = Some h →
  checkDone pa =
    Ret (if len (pa_Data pa) >? pa_packetSize pa
         then (true, Some (ErrOverrun (pa_packetSize pa) (len (pa_Data pa))))
         else (bool_decide (len (pa_Data pa) = PacketSize h), None)).
Proof.
  intros Hh. unfold checkDone. rewrite Hh. by destruct (_ >? _).
Qed.

(** The first [Write] of an accumulator, on a packet whose header parses. *)
Lemma Write_first (pa : PESAccumulator) (pkt : Packet) (pesBytes : list byte)
    (h : PESHeader) :
  pa_PESHeader pa = None →
  packet_PESHeader pkt = inl pesBytes →
  NewPESHeader pesBytes = Ret (h, None) →
  Write pa pkt =
    Ret (holding h (Data h),
         if len (Data h) >? PacketSize h
         then (true, Some (ErrOverrun (PacketSize h) (len (Data h))))
         else (bool_decide (len (Data h) = PacketSize h), None)).
Proof.
  intros Hnone Hpkt Hh. unfold Write. rewrite Hnone, Hpkt, Hh.
  cbn [mbind go_bind pa_PESHeader pa_packetSize pa_Data].
  erewrite checkDone_with_header by reflexivity. done.
Qed.

(** A later [Write], on a packet that has a payload. *)
Lemma Write_next (pa : PESAccumulator) (pkt : Packet) (payload : list byte)
    (h : PESHeader) :
  pa_PESHeader pa = Some h →
  Payload pkt = inl payload →
  Write pa pkt =
    Ret (mkPESAccumulator (Some h) (pa_packetSize pa) (pa_Data pa ++ payload),
         if len (pa_Data pa ++ payload) >? pa_packetSize pa
         then (true, Some (ErrOverrun (pa_packetSize pa)
                             (len (pa_Data pa ++ payload))))
         else (bool_decide (len (pa_Data pa ++ payload) = PacketSize h), None)).
Proof.
  intros Hsome Hpkt. unfold Write. rewrite Hsome, Hpkt.
  erewrite checkDone_with_header by reflexivity. done.
Qed.

(** What holds of every collecting accumulator. *)
Lemma collecting_inv (pa : PESAccumulator) :
  collecting pa →
  match pa_PESHeader pa with
  | None => pa = new_PESAccumulator
  | Some h => pa_packetSize pa = PacketSize h
              ∧ len (pa_Data pa) < pa_packetSize pa
  end.
Proof.
  induction 1 as [|pa pkt pa' Hc IH Hw]; [done|].
  unfold Write in Hw. destruct (pa_PESHeader pa) as [h|] eqn:Hh.
  - destruct IH as [Hsize Hlt].
    destruct (Payload pkt) as [payload|err]; [|done].
    erewrite checkDone_with_header in Hw by reflexivity.
    cbn [mbind go_bind pa_PESHeader pa_packetSize pa_Data] in Hw.
    destruct (Z.gtb_spec (len (pa_Data pa ++ payload)) (pa_packetSize pa));
      [done|].
    injection Hw as <- Hd. cbn. apply bool_decide_eq_false in Hd.
    split; [done|]. lia.
  - destruct (packet_PESHeader pkt) as [pesBytes|err]; [|done].
    destruct (NewPESHeader pesBytes) as [[pes [err|]]|p]; try done.
    cbn [mbind go_bind pa_PESHeader pa_packetSize pa_Data] in Hw.
    erewrite checkDone_with_header in Hw by reflexivity.
    cbn [mbind go_bind pa_PESHeader pa_packetSize pa_Data] in Hw.
    destruct (Z.gtb_spec (len (Data pes)) (PacketSize pes)); [done|].
    injection Hw as <- Hd. cbn. apply bool_decide_eq_false in Hd.
    split; [done|]. lia.
Qed.

(** A [Write] on a collecting accumulator returns, unless it is the first
    and the packet's PES bytes are exactly 6 bytes long; and it reports the
    overrun error exactly when the buffer has grown past the expected size. *)
Lemma Write_overrun_iff (pa : PESAccumulator) (pkt : Packet) :
  collecting pa →
  (pa_PESHeader pa = None →
   ∀ pesBytes, packet_PESHeader pkt = inl pesBytes → length pesBytes ≠ 6%nat) →
  ∃ pa' done err,
    Write pa pkt = Ret (pa', (done, err))
    ∧ (is_overrun err = true ↔ pa_packetSize pa' < len (pa_Data pa'))
    ∧ (is_overrun err = true →
       done = true
       ∧ err = Some (ErrOverrun (pa_packetSize pa') (len (pa_Data pa')))).
Proof.
  intros Hc Hsix. pose proof (collecting_inv pa Hc) as Hinv.
  destruct (pa_PESHeader pa) as [h|] eqn:Hh.
  - destruct Hinv as [Hsize Hlt]. clear Hsix.
    destruct (Payload pkt) as [payload|perr] eqn:Hp.
    + rewrite (Write_next pa pkt payload h) by done.
      destruct (Z.gtb_spec (len (pa_Data pa ++ payload)) (pa_packetSize pa)).
      * eexists _, _, _. split; [reflexivity|]. cbn. split; [|done].
        split; [done|lia].
      * eexists _, _, _. split; [reflexivity|]. cbn. split; [|done].
        split; [done|lia].
    + unfold Write. rewrite Hh, Hp.
      eexists _, _, _. split; [reflexivity|]. cbn. split; [|done].
      split; [done|lia].
  - subst pa. unfold Write. cbn [pa_PESHeader new_PESAccumulator].
    destruct (packet_PESHeader pkt) as [pesBytes|perr] eqn:Hp.
    + destruct (NewPESHeader_returns pesBytes) as (pes & err & Hpes).
      { by apply Hsix. }
      rewrite Hpes. cbn [mbind go_bind pa_PESHeader pa_packetSize pa_Data].
      destruct err as [err|].
      * eexists _, _, _. split; [reflexivity|]. cbn. split; [|done].
        split; [done|]. unfold len. simpl. lia.
      * erewrite checkDone_with_header by reflexivity.
        cbn [mbind go_bind pa_PESHeader pa_packetSize pa_Data].
        destruct (Z.gtb_spec (len (Data pes)) (PacketSize pes)).
        -- eexists _, _, _. split; [reflexivity|]. cbn. split; [|done].
           split; [done|lia].
        -- eexists _, _, _. split; [reflexivity|]. cbn. split; [|done].
           split; [done|lia].
    + eexists _, _, _. split; [reflexivity|]. cbn. split; [|done].
      split; [done|]. unfold len. simpl. lia.
Qed.

(** *** Feeding an accumulator that has its header *)

Lemma Write_holding (h : PESHeader) (d : list byte) (pkt : Packet) (c : list byte) :
  Payload pkt = inl c →
  Write (holding h d) pkt =
    Ret (holding h (d ++ c),
         if len (d ++ c) >? (PacketSize h)
         then (true, Some (ErrOverrun (PacketSize h) (len (d ++ c))))
         else (bool_decide (len (d ++ c) = (PacketSize h)), None)).
Proof.
  intros Hc. by rewrite (Write_next (holding h d) pkt c h).
Qed.

(** While the bytes that arrived are fewer than expected, every [Write]
    reports neither done nor an error. *)
Lemma feed_below (h : PESHeader) (pkts : list Packet) (chunks : list (list byte)) :
  payloads pkts chunks →
  ∀ d, len d + len (concat chunks) < (PacketSize h) →
  feed (holding h d) pkts =
    Ret (holding h (d ++ concat chunks), replicate (length pkts) (false, None)).
Proof.
  induction 1 as [|pkt c pkts chunks Hc _ IH]; intros d Hlt.
  - simpl. by rewrite app_nil_r.
  - simpl in Hlt. rewrite len_app in Hlt.
    pose proof (len_nonneg (concat chunks)).
    cbn [feed]. rewrite (Write_holding h d pkt c Hc).
    cbn [mbind go_bind]. rewrite len_app.
    destruct (Z.gtb_spec (len d + len c) (PacketSize h)); [lia|].
    rewrite bool_decide_false by lia. cbn [terminal].
    rewrite IH by (rewrite len_app; lia).
    cbn [mbind go_bind]. simpl. by rewrite <- app_assoc.
Qed.

(** Packets after a prefix that is fed without a terminal report. *)
Lemma feed_app (pa pa1 : PESAccumulator) (pkts1 pkts2 : list Packet) (n : nat) :
  feed pa pkts1 = Ret (pa1, replicate n (false, None)) →
  n = length pkts1 →
  feed pa (pkts1 ++ pkts2) =
    '(pa2, rs) ← feed pa1 pkts2; Ret (pa2, replicate n (false, None) ++ rs).
Proof.
  revert pa n. induction pkts1 as [|pkt pkts1 IH]; intros pa n Hfeed Hn.
  - simpl in *. subst n. injection Hfeed as <-. simpl.
    destruct (feed pa pkts2) as [[pa2 rs]|p]; done.
  - cbn [feed app] in *. destruct (Write pa pkt) as [[pa' r]|p]; [|done].
    cbn [mbind go_bind] in *. destruct (terminal r) eqn:Hr.
    { injection Hfeed as <- Hrs. destruct n as [|[|n]]; simpl in *; try done.
      injection Hrs as ->. done. }
    destruct (feed pa' pkts1) as [[pa'' rs]|p] eqn:Hrest; [|done].
    cbn [mbind go_bind] in Hfeed. injection Hfeed as -> Hrs.
    destruct n as [|n]; [done|]. simpl in Hrs. injection Hrs as -> ->.
    simpl in Hn. rewrite (IH pa' n Hrest) by lia.
    destruct (feed pa1 pkts2) as [[pa2 rs2]|p]; done.
Qed.

(** When the bytes add up to the expected size, the accumulator reports
    done at one [Write], the last one it sees, and holds all the bytes; when
    no chunk is empty, that [Write] is the one of the last packet. *)
Lemma feed_exact (h : PESHeader) (pkts : list Packet) (chunks : list (list byte)) :
  payloads pkts chunks →
  ∀ d, len d < (PacketSize h) → len d + len (concat chunks) = (PacketSize h) →
  ∃ k, feed (holding h d) pkts =
         Ret (holding h (d ++ concat chunks), replicate k (false, None) ++ [(true, None)])
       ∧ (Forall (λ c, c ≠ []) chunks → S k = length pkts).
Proof.
  induction 1 as [|pkt c pkts chunks Hc Hrest IH]; intros d Hlt Hsum.
  - simpl in Hsum. unfold len in Hsum at 2. simpl in Hsum. lia.
  - simpl in Hsum. rewrite len_app in Hsum.
    pose proof (len_nonneg (concat chunks)).
    cbn [feed]. rewrite (Write_holding h d pkt c Hc).
    cbn [mbind go_bind]. rewrite len_app.
    destruct (Z.gtb_spec (len d + len c) (PacketSize h)); [lia|].
    destruct (decide (len d + len c = (PacketSize h))) as [Heq|Hne].
    + rewrite bool_decide_true by done. cbn [terminal].
      exists 0%nat. simpl.
      rewrite (len_zero_nil (concat chunks)) by lia. rewrite app_nil_r.
      split; [done|]. intros Hne. apply Forall_cons in Hne as [_ Hne].
      destruct Hrest as [|pkt' c' pkts' chunks' _ _]; [done|].
      apply Forall_cons in Hne as [Hc' _].
      simpl in *. rewrite len_app in *. pose proof (len_nonneg (concat chunks')).
      pose proof (len_nonneg c'). destruct Hc'. apply len_zero_nil. lia.
    + rewrite bool_decide_false by done. cbn [terminal].
      destruct (IH (d ++ c)) as (k & Hk & Hlast); [rewrite len_app; lia..|].
      rewrite Hk. cbn [mbind go_bind]. exists (S k).
      simpl. rewrite <- app_assoc. split; [done|].
      intros Hall. apply Forall_cons in Hall as [_ Hall]. by rewrite Hlast.
Qed.

(** When a chunk takes the bytes past the expected size, the overrun is
    reported at the [Write] of that chunk, after which nothing is written. *)
Lemma feed_crossing (h : PESHeader) (pre : list Packet) (pkt : Packet) (post : list Packet)
    (chunks : list (list byte)) (c : list byte) (d : list byte) :
  payloads pre chunks →
  Payload pkt = inl c →
  len d + len (concat chunks) < (PacketSize h) →
  PacketSize h < len d + len (concat chunks) + len c →
  feed (holding h d) (pre ++ pkt :: post) =
    Ret (holding h (d ++ concat chunks ++ c),
         replicate (length pre) (false, None)
         ++ [(true, Some (ErrOverrun (PacketSize h) (len (d ++ concat chunks ++ c))))]).
Proof.
  intros Hpre Hc Hlt Hgt.
  rewrite (feed_app _ _ _ _ _ (feed_below h pre chunks Hpre d Hlt) eq_refl).
  cbn [feed]. rewrite (Write_holding h _ pkt c Hc). cbn [mbind go_bind].
  rewrite <- app_assoc.
  destruct (Z.gtb_spec (len (d ++ concat chunks ++ c)) (PacketSize h)) as [_|Hle].
  - done.
  - rewrite !len_app in Hle. lia.
Qed.

Lemma count_done_once (k : nat) :
  count_done (replicate k (false, None) ++ [(true, None)]) = 1%nat.
Proof.
  induction k as [|k IH]; [done|]. exact IH.
Qed.

Lemma Forall_no_error (k : nat) :
  Forall (λ r : bool * option error, r.2 = None)
    (replicate k (false, None) ++ [(true, None)]).
Proof.
  apply Forall_app. split; [|by constructor].
  apply Forall_replicate. done.
Qed.

(** ** C2: chunks that add up to the expected size *)

(** C2. Let the first packet carry a PES header [h] that parses, with
    remaining size [L = PacketSize h], and let the later packets carry the
    payload chunks [chunks], such that the trailing bytes of the header and
    the chunks are [L] bytes in all.  Fed to a new accumulator until it
    reports done or an error, the packets make it report done exactly once,
    at its last [Write], with no error at any [Write], and its buffer is the
    header's trailing bytes followed by all chunks in order; when no chunk
    is empty, every packet is written before that.  When [L = 0] and the
    header has no trailing bytes, the first [Write] reports done with an
    empty buffer. *)
Theorem accumulator_done_exactly_once (first : Packet) (rest : list Packet)
    (pesBytes : list byte) (h : PESHeader) (chunks : list (list byte)) :
  packet_PESHeader first = inl pesBytes →
  NewPESHeader pesBytes = Ret (h, None) →
  payloads rest chunks →
  len (Data h) + len (concat chunks) = PacketSize h →
  0 ≤ PacketSize h
  ∧ (∃ pa rs,
       feed new_PESAccumulator (first :: rest) = Ret (pa, rs)
       ∧ count_done rs = 1%nat
       ∧ last rs = Some (true, None)
       ∧ Forall (λ r, r.2 = None) rs
       ∧ pa_Data pa = Data h ++ concat chunks
       ∧ (Forall (λ c, c ≠ []) chunks → length rs = S (length rest)))
  ∧ (PacketSize h = 0 → Data h = [] →
     ∃ pa, Write new_PESAccumulator first = Ret (pa, (true, None))
           ∧ pa_Data pa = []).
Proof.
  intros Hfirst Hh Hrest Hsum.
  pose proof (len_nonneg (Data h)). pose proof (len_nonneg (concat chunks)).
  pose proof (Write_first new_PESAccumulator first pesBytes h eq_refl Hfirst Hh)
    as Hw.
  destruct (Z.gtb_spec (len (Data h)) (PacketSize h)); [lia|].
  split; [lia|]. split.
  - cbn [feed]. rewrite Hw. cbn [mbind go_bind].
    destruct (decide (len (Data h) = PacketSize h)) as [Heq|Hne].
    + rewrite bool_decide_true by done. cbn [terminal].
      eexists _, _. split; [reflexivity|]. cbn [pa_Data].
      split_and!; try done.
      * by repeat constructor.
      * rewrite (len_zero_nil (concat chunks)) by lia. by rewrite app_nil_r.
      * intros Hne. destruct Hrest as [|pkt c pkts chunks _ _]; [done|].
        apply Forall_cons in Hne as [Hc _]. simpl in *. rewrite len_app in *.
        pose proof (len_nonneg (concat chunks)). pose proof (len_nonneg c).
        destruct Hc. apply len_zero_nil. lia.
    + rewrite bool_decide_false by done. cbn [terminal].
      destruct (feed_exact h rest chunks Hrest (Data h)) as (k & Hk & Hlast);
        [lia..|].
      rewrite Hk. cbn [mbind go_bind].
      eexists _, _. split; [reflexivity|]. cbn [pa_Data].
      split_and!; try done.
      * apply (count_done_once (S k)).
      * change ((false, None) :: replicate k (false, None) ++ [(true, None)])
          with (replicate (S k) (false, @None error) ++ [(true, None)]).
        by rewrite last_snoc.
      * apply (Forall_no_error (S k)).
      * intros Hall. simpl. rewrite length_app, length_replicate. simpl.
        rewrite <- (Hlast Hall). lia.
  - intros HL Hd. rewrite Hw. rewrite bool_decide_true by lia.
    eexists. split; [reflexivity|]. done.
Qed.

(** ** C3: overrun *)

(** C3. A [Write] on a collecting accumulator (the first [Write] included)
    returns, unless it is the first and the packet's PES bytes are exactly 6
    bytes long; it reports the overrun error if and only if the buffer is
    then longer than the expected size, and then with done set.  So when a
    chunk takes the bytes of a unit from below the expected size past it,
    the overrun is reported at the [Write] of that chunk: every earlier
    [Write] of the accumulator reported neither done nor an error, and the
    accumulator is not written to afterwards. *)
Theorem accumulator_overrun :
  (∀ (pa : PESAccumulator) (pkt : Packet),
     collecting pa →
     (pa_PESHeader pa = None →
      ∀ pesBytes, packet_PESHeader pkt = inl pesBytes → length pesBytes ≠ 6%nat) →
     ∃ pa' done err,
       Write pa pkt = Ret (pa', (done, err))
       ∧ (is_overrun err = true ↔ pa_packetSize pa' < len (pa_Data pa'))
       ∧ (is_overrun err = true →
          done = true
          ∧ err = Some (ErrOverrun (pa_packetSize pa') (len (pa_Data pa')))))
  ∧ (∀ (first : Packet) (pre : list Packet) (pkt : Packet) (post : list Packet)
       (pesBytes : list byte) (h : PESHeader) (chunks : list (list byte))
       (c : list byte),
       packet_PESHeader first = inl pesBytes →
       NewPESHeader pesBytes = Ret (h, None) →
       payloads pre chunks →
       Payload pkt = inl c →
       len (Data h) + len (concat chunks) < PacketSize h →
       PacketSize h < len (Data h) + len (concat chunks) + len c →
       ∃ pa,
         feed new_PESAccumulator (first :: pre ++ pkt :: post) =
           Ret (pa, replicate (S (length pre)) (false, None)
                    ++ [(true, Some (ErrOverrun (PacketSize h) (len (pa_Data pa))))])
         ∧ pa_Data pa = Data h ++ concat chunks ++ c
         ∧ pa_packetSize pa = PacketSize h).
Proof.
  split; [apply Write_overrun_iff|].
  intros first pre pkt post pesBytes h chunks c Hfirst Hh Hpre Hc Hlt Hgt.
  pose proof (len_nonneg (concat chunks)).
  cbn [feed].
  rewrite (Write_first new_PESAccumulator first pesBytes h eq_refl Hfirst Hh).
  cbn [mbind go_bind].
  destruct (Z.gtb_spec (len (Data h)) (PacketSize h)); [lia|].
  rewrite bool_decide_false by lia. cbn [terminal].
  rewrite (feed_crossing h pre pkt post chunks c (Data h) Hpre Hc Hlt Hgt).
  cbn [mbind go_bind]. eexists (mkPESAccumulator _ _ _).
  split; [reflexivity|]. done.
Qed.

(** ** C10: a declared length of zero *)

(** C10. For a header that parsed with declared packet length 0: the payload
    starts at offset 6 or at an offset of 9 or more; in the second case
    [PacketSize] is negative and the first [Write] of an accumulator reports
    the overrun error, whatever the trailing bytes of the header, the empty
    sequence included; and a first [Write] that reports done implies that
    the offset is 6 and the buffer empty. *)
Theorem zero_length_header (pkt : Packet) (pesBytes : list byte) (h : PESHeader) :
  packet_PESHeader pkt = inl pesBytes →
  NewPESHeader pesBytes = Ret (h, None) →
  pesPacketLength h = 0 →
  (dataStartIndex h = 6 ∨ 9 ≤ dataStartIndex h)
  ∧ (9 ≤ dataStartIndex h →
     PacketSize h < 0
     ∧ Write new_PESAccumulator pkt =
         Ret (holding h (Data h),
              (true, Some (ErrOverrun (PacketSize h) (len (Data h))))))
  ∧ (∀ pa r, Write new_PESAccumulator pkt = Ret (pa, r) →
             reports_done r = true →
             dataStartIndex h = 6 ∧ PacketSize h = 0 ∧ pa_Data pa = []).
Proof.
  intros Hpkt Hh Hzero.
  destruct (NewPESHeader_ok pesBytes h Hh) as (_ & Hdsi & _).
  pose proof (len_nonneg (Data h)).
  pose proof (Write_first new_PESAccumulator pkt pesBytes h eq_refl Hpkt Hh) as Hw.
  unfold PacketSize in *. rewrite Hzero in *.
  split_and!; [done| |].
  - intros H9. split; [lia|]. rewrite Hw.
    destruct (Z.gtb_spec (len (Data h)) (0 - (dataStartIndex h - 6))); [done|lia].
  - intros pa r Hr Hdone. rewrite Hw in Hr. injection Hr as <- <-.
    destruct (Z.gtb_spec (len (Data h)) (0 - (dataStartIndex h - 6))); [done|].
    cbn [reports_done] in Hdone. case_bool_decide as Heq; [|done].
    cbn [pa_Data holding]. assert (dataStartIndex h = 6) by lia.
    split_and!; [done|lia|]. apply len_zero_nil. lia.
Qed.

(** ** The packet loop *)

(** One turn of the loop of [readPacketStream], by what the read gave. *)
Lemma readPacketStream_loop_turn (metadataPID : Z) (r : Reader)
    (pesAccumulator : PESAccumulator) :
  readPacketStream_loop metadataPID r pesAccumulator =
    match io_ReadFull r packet_PacketSize with
    | (inr err, _) =>
        if errors_Is err io_EOF || errors_Is err io_ErrUnexpectedEOF
        then Ret [errInfoChan io_EOF]
        else Ret [errInfoChan (Wrap "failed packet read" err)]
    | (inl pkt, r') =>
        match readPacketStream_packet metadataPID pesAccumulator pkt with
        | Panic p => Panic p
        | Ret (Return sent) => Ret sent
        | Ret (Continue pa sent) =>
            rest ← readPacketStream_loop metadataPID r' pa;
            Ret (sent ++ rest)
        end
    end.
Proof.
  rewrite readPacketStream_loop_equation_1. unfold inspect.
  enough (Hgen : ∀ (x : (list byte + error) * Reader)
                   (e : io_ReadFull r packet_PacketSize = x),
            readPacketStream_loop_unfold_clause_1 metadataPID r (exist _ x e)
              pesAccumulator =
            match x with
            | (inr err, _) =>
                if errors_Is err io_EOF || errors_Is err io_ErrUnexpectedEOF
                then Ret [errInfoChan io_EOF]
                else Ret [errInfoChan (Wrap "failed packet read" err)]
            | (inl pkt, r') =>
                match readPacketStream_packet metadataPID pesAccumulator pkt with
                | Panic p => Panic p
                | Ret (Return sent) => Ret sent
                | Ret (Continue pa sent) =>
                    rest ← readPacketStream_loop metadataPID r' pa;
                    Ret (sent ++ rest)
                end
            end) by apply Hgen.
  intros [[pkt|err] r1] e.
  - rewrite readPacketStream_loop_clause_1_equation_1.
    destruct (readPacketStream_packet metadataPID pesAccumulator pkt)
      as [[pa sent|sent]|p].
    + by rewrite readPacketStream_loop_clause_1_clause_2_equation_1.
    + by rewrite readPacketStream_loop_clause_1_clause_2_equation_2.
    + by rewrite readPacketStream_loop_clause_1_clause_2_equation_3.
  - by rewrite readPacketStream_loop_clause_1_equation_2.
Qed.

Lemma io_ReadFull_packet (pkt : Packet) (data : list byte) (e : error) :
  length pkt = packet_PacketSize →
  io_ReadFull (mkReader (pkt ++ data) e) packet_PacketSize
  = (inl pkt, mkReader data e).
Proof.
  intros Hlen. unfold io_ReadFull. cbn [rd_data rd_end].
  rewrite decide_True by (rewrite length_app; lia).
  rewrite take_app_length' by done. rewrite drop_app_length' by done. done.
Qed.

Lemma io_ReadFull_short (rest : list byte) (e : error) :
  (length rest < packet_PacketSize)%nat →
  io_ReadFull (mkReader rest e) packet_PacketSize
  = (inr (match rest with
          | [] => e
          | _ :: _ => if decide (e = io_EOF) then io_ErrUnexpectedEOF else e
          end), mkReader [] e).
Proof.
  intros Hlen. unfold io_ReadFull. cbn [rd_data rd_end].
  rewrite decide_False by lia. done.
Qed.

(** The loop over an input that starts with complete packets: their turns,
    then the loop over what follows them. *)
Lemma readPacketStream_loop_packets (metadataPID : Z) (pkts : list Packet) :
  Forall (λ pkt, length pkt = packet_PacketSize) pkts →
  ∀ (pa : PESAccumulator) (data : list byte) (e : error),
  readPacketStream_loop metadataPID (mkReader (concat pkts ++ data) e) pa =
    match readPacketStream_packets metadataPID pa pkts with
    | Panic p => Panic p
    | Ret (sent, None) => Ret sent
    | Ret (sent, Some pa') =>
        rest ← readPacketStream_loop metadataPID (mkReader data e) pa';
        Ret (sent ++ rest)
    end.
Proof.
  induction 1 as [|pkt pkts Hlen _ IH]; intros pa data e.
  - cbn. by destruct (readPacketStream_loop _ _ _).
  - rewrite readPacketStream_loop_turn. cbn [concat]. rewrite <- app_assoc.
    rewrite io_ReadFull_packet by done.
    cbn [readPacketStream_packets].
    destruct (readPacketStream_packet metadataPID pa pkt)
      as [[pa1 sent1|sent1]|p]; cbn [mbind go_bind]; [|done..].
    rewrite IH.
    destruct (readPacketStream_packets metadataPID pa1 pkts)
      as [[sent [pa2|]]|p]; cbn [mbind go_bind]; [|done..].
    destruct (readPacketStream_loop _ _ _); cbn [mbind go_bind]; [|done].
    by rewrite app_assoc.
Qed.

(** While the loop has not returned, it sent nothing but records. *)
Lemma readPacketStream_packets_records (metadataPID : Z) (pkts : list Packet) :
  ∀ pa sent pa',
  readPacketStream_packets metadataPID pa pkts = Ret (sent, Some pa') →
  Forall (λ mo, mo_Error mo = None ∧ is_Some (mo_MetaInfo mo)) sent.
Proof.
  induction pkts as [|pkt pkts IH]; intros pa sent pa' Hp.
  - injection Hp as <- _. constructor.
  - cbn [readPacketStream_packets] in Hp.
    destruct (readPacketStream_packet metadataPID pa pkt)
      as [[pa1 sent1|sent1]|p] eqn:Hturn; cbn [mbind go_bind] in Hp; [|done..].
    destruct (readPacketStream_packets metadataPID pa1 pkts)
      as [[sent2 [pa2|]]|p] eqn:Hrest; cbn [mbind go_bind] in Hp; [|done..].
    injection Hp as <- <-. apply Forall_app. split; [|by eapply IH].
    unfold readPacketStream_packet in Hturn.
    case_bool_decide; [|injection Hturn as <- <-; constructor].
    destruct (Write pa pkt) as [[pa3 [dn err]]|p];
      cbn [mbind go_bind] in Hturn; [|done].
    destruct err as [err|]; [done|]. destruct dn.
    + destruct (parseID3 pa3) as [[mi|err]|p]; cbn [mbind go_bind] in Hturn;
        [|done..].
      injection Hturn as <- <-. repeat constructor. by eexists.
    + injection Hturn as <- <-. constructor.
Qed.

Lemma Read_range_records (sent : list MetaOptional) (e : error) :
  Forall (λ mo, mo_Error mo = None ∧ is_Some (mo_MetaInfo mo)) sent →
  ∀ meta,
  Read_range (sent ++ [errInfoChan e]) meta
  = (meta ++ (mo_MetaInfo <$> sent),
     if errors_Is e io_EOF then None else Some e).
Proof.
  induction 1 as [|mo sent [Hmo _] _ IH]; intros meta.
  - cbn. rewrite app_nil_r. by destruct (errors_Is e io_EOF).
  - cbn [app Read_range]. rewrite Hmo, IH. cbn. by rewrite <- app_assoc.
Qed.

(** ** C7: the end of the input *)

(** C7. Let the input, behind the program tables, consist of the complete
    packets [pkts] followed by fewer than 188 bytes [rest], and let the loop
    handle every complete packet without returning, sending the messages
    [sent].  Then the next read fails, with the error [err] of the source
    when no byte is left, and with [io.ErrUnexpectedEOF] when the source
    ends regularly inside a packet.  Every message of [sent] is a record.
    When [err] is an end of input, [Read] returns these records, in the
    order they were sent, and no error; on any other [err] it returns the
    same records and the error that wraps [err]. *)
Theorem Read_at_end_of_input (r0 r : Reader) (metadataPID : Z)
    (pkts : list Packet) (rest : list byte) (sent : list MetaOptional)
    (pa : PESAccumulator) (err : error) (r' : Reader) :
  getStreamPID r0 = (inl metadataPID, r) →
  rd_data r = concat pkts ++ rest →
  Forall (λ pkt, length pkt = packet_PacketSize) pkts →
  (length rest < packet_PacketSize)%nat →
  readPacketStream_packets metadataPID new_PESAccumulator pkts
  = Ret (sent, Some pa) →
  io_ReadFull (mkReader rest (rd_end r)) packet_PacketSize = (inr err, r') →
  (rest = [] → err = rd_end r)
  ∧ (rest ≠ [] → rd_end r = io_EOF → err = io_ErrUnexpectedEOF)
  ∧ Forall (λ mo, mo_Error mo = None ∧ is_Some (mo_MetaInfo mo)) sent
  ∧ (end_of_input err = true →
     Read r0 = Ret (mo_MetaInfo <$> sent, None))
  ∧ (end_of_input err = false →
     Read r0 = Ret (mo_MetaInfo <$> sent,
                    Some (Wrap "failed packet read" err))).
Proof.
  intros Hpid Hdata Hpkts Hrest Hsent Hread.
  pose proof (readPacketStream_packets_records _ _ _ _ _ Hsent) as Hrecs.
  assert (Hloop : readPacketStream r metadataPID =
                  Ret (sent ++ [errInfoChan (if end_of_input err then io_EOF
                                             else Wrap "failed packet read" err)])).
  { unfold readPacketStream. destruct r as [data e]. cbn in Hdata, Hread.
    subst data. rewrite readPacketStream_loop_packets by done.
    rewrite Hsent. rewrite readPacketStream_loop_turn, Hread.
    fold (end_of_input err). by destruct (end_of_input err). }
  rewrite io_ReadFull_short in Hread by done. injection Hread as <- _.
  split_and!.
  - by intros ->.
  - intros Hne ->. destruct rest; [done|]. by rewrite decide_True.
  - done.
  - intros Hend. unfold Read, ReadStream. rewrite Hpid, Hloop.
    cbn [mbind go_bind]. rewrite Hend. by rewrite Read_range_records.
  - intros Hend. unfold Read, ReadStream. rewrite Hpid, Hloop.
    cbn [mbind go_bind]. rewrite Hend. rewrite Read_range_records by done.
    cbn [errors_Is]. rewrite decide_False by done.
    unfold end_of_input in Hend. apply orb_false_iff in Hend as [-> _]. done.
Qed.

(** * Further properties *)

(** ** [ExtractTime] *)

Lemma lor_add_low (hi lo n : Z) :
  0 ≤ n → 0 ≤ lo < 2 ^ n → Z.lor (hi * 2 ^ n) lo = hi * 2 ^ n + lo.
Proof.
  intros Hn Hlo. rewrite <- Z.lxor_lor, <- Z.add_nocarry_lxor; [done| |].
  all: rewrite <- (Z.mod_small lo (2 ^ n)) by done.
  all: rewrite <- Z.land_ones, (Z.land_comm lo), Z.land_assoc, Z.land_ones by done.
  all: rewrite Z.mod_mul by (apply Z.pow_nonzero; lia).
  all: apply Z.land_0_l.
Qed.

(** The value on a 5-byte field, with the shifts as multiplications. *)
Lemma ExtractTime_five (b0 b1 b2 b3 b4 : byte) :
  ExtractTime [b0; b1; b2; b3; b4] =
    Ret (Z.land (Z.shiftr (u8 b0) 1) 0x07 * 2 ^ 30 + u8 b1 * 2 ^ 22
         + Z.land (Z.shiftr (u8 b2) 1) 0x7f * 2 ^ 15 + u8 b3 * 2 ^ 7
         + Z.land (Z.shiftr (u8 b4) 1) 0x7f).
Proof.
  pose proof (fragment3_range b0) as Ha. pose proof (u8_range b1) as Hb.
  pose proof (fragment7_range b2) as Hc. pose proof (u8_range b3) as Hd.
  pose proof (fragment7_range b4) as He.
  unfold ExtractTime. cbn [index lookup list_lookup mbind go_bind].
  set (a := Z.land (Z.shiftr (u8 b0) 1) 0x07) in *.
  set (c := Z.land (Z.shiftr (u8 b2) 1) 0x7f) in *.
  set (e := Z.land (Z.shiftr (u8 b4) 1) 0x7f) in *.
  f_equal. rewrite !shl_small by lia. rewrite !Z.shiftl_mul_pow2 by lia.
  rewrite (lor_add_low a (u8 b1 * 2 ^ 22) 30) by lia.
  replace (a * 2 ^ 30 + u8 b1 * 2 ^ 22)
    with ((a * 2 ^ 8 + u8 b1) * 2 ^ 22) by lia.
  rewrite (lor_add_low _ (c * 2 ^ 15) 22) by lia.
  replace ((a * 2 ^ 8 + u8 b1) * 2 ^ 22 + c * 2 ^ 15)
    with (((a * 2 ^ 8 + u8 b1) * 2 ^ 7 + c) * 2 ^ 15) by lia.
  rewrite (lor_add_low _ (u8 b3 * 2 ^ 7) 15) by lia.
  replace (((a * 2 ^ 8 + u8 b1) * 2 ^ 7 + c) * 2 ^ 15 + u8 b3 * 2 ^ 7)
    with ((((a * 2 ^ 8 + u8 b1) * 2 ^ 7 + c) * 2 ^ 8 + u8 b3) * 2 ^ 7) by lia.
  rewrite (lor_add_low _ e 7) by lia. lia.
Qed.

(** X1. [ExtractTime] panics exactly on the buffers of fewer than 5 bytes,
    and on a longer buffer it reads the first 5 bytes only. *)
Theorem ExtractTime_reads_five_bytes (bytes : list byte) :
  (panics (ExtractTime bytes) = true ↔ (length bytes < 5)%nat)
  ∧ ((5 ≤ length bytes)%nat → ExtractTime bytes = ExtractTime (take 5 bytes)).
Proof.
  destruct bytes as [|b0 [|b1 [|b2 [|b3 [|b4 rest]]]]];
    try (split; [split; [intros _; simpl; lia|intros _; reflexivity]|simpl; lia]).
  split; [|reflexivity].
  unfold ExtractTime. cbn [index lookup list_lookup mbind go_bind panics].
  split; [done|]. simpl. lia.
Qed.

(** X2. On a 5-byte field the value is the sum of five fields that do not
    overlap: 3 bits of byte 0 at weight [2^30], byte 1 at [2^22], 7 bits of
    byte 2 at [2^15], byte 3 at [2^7] and 7 bits of byte 4. *)
Theorem ExtractTime_sum_of_fields (b0 b1 b2 b3 b4 : byte) :
  ExtractTime [b0; b1; b2; b3; b4] =
    Ret ((u8 b0 / 2) mod 8 * 2 ^ 30 + u8 b1 * 2 ^ 22
         + (u8 b2 / 2) mod 128 * 2 ^ 15 + u8 b3 * 2 ^ 7
         + (u8 b4 / 2) mod 128).
Proof.
  rewrite ExtractTime_five.
  change 0x07 with (Z.ones 3). change 0x7f with (Z.ones 7).
  rewrite !Z.land_ones by done. rewrite !Z.shiftr_div_pow2 by done. done.
Qed.

(** The bits of a byte that a masked fragment keeps. *)
Lemma fragment3_bits (b b' : byte) :
  Z.land (Z.shiftr (u8 b) 1) 0x07 = Z.land (Z.shiftr (u8 b') 1) 0x07
  ↔ Z.land (u8 b) 0x0e = Z.land (u8 b') 0x0e.
Proof.
  assert (H : ∀ x : byte, Z.land (u8 x) 0x0e
                          = 2 * Z.land (Z.shiftr (u8 x) 1) 0x07)
    by (intros x; destruct x; reflexivity).
  rewrite !H. lia.
Qed.

Lemma fragment7_bits (b b' : byte) :
  Z.land (Z.shiftr (u8 b) 1) 0x7f = Z.land (Z.shiftr (u8 b') 1) 0x7f
  ↔ Z.land (u8 b) 0xfe = Z.land (u8 b') 0xfe.
Proof.
  assert (H : ∀ x : byte, Z.land (u8 x) 0xfe
                          = 2 * Z.land (Z.shiftr (u8 x) 1) 0x7f)
    by (intros x; destruct x; reflexivity).
  rewrite !H. lia.
Qed.

(** X3. Two 5-byte fields have the same time stamp exactly when they agree
    on bits 1 to 3 of byte 0, on bytes 1 and 3, and on bits 1 to 7 of bytes
    2 and 4: the four high bits of byte 0 and the marker bits are not read,
    and every other bit is. *)
Theorem ExtractTime_eq_iff (b0 b1 b2 b3 b4 c0 c1 c2 c3 c4 : byte) :
  ExtractTime [b0; b1; b2; b3; b4] = ExtractTime [c0; c1; c2; c3; c4]
  ↔ Z.land (u8 b0) 0x0e = Z.land (u8 c0) 0x0e
    ∧ b1 = c1
    ∧ Z.land (u8 b2) 0xfe = Z.land (u8 c2) 0xfe
    ∧ b3 = c3
    ∧ Z.land (u8 b4) 0xfe = Z.land (u8 c4) 0xfe.
Proof.
  rewrite !ExtractTime_five.
  rewrite <- (fragment3_bits b0 c0), <- (fragment7_bits b2 c2),
    <- (fragment7_bits b4 c4).
  pose proof (fragment3_range b0). pose proof (fragment3_range c0).
  pose proof (fragment7_range b2). pose proof (fragment7_range c2).
  pose proof (fragment7_range b4). pose proof (fragment7_range c4).
  pose proof (u8_range b1). pose proof (u8_range c1).
  pose proof (u8_range b3). pose proof (u8_range c3).
  assert (Hinj : ∀ x y : byte, u8 x = u8 y → x = y).
  { intros x y Hxy. unfold u8 in Hxy. apply N2Z.inj in Hxy.
    pose proof (Byte.of_to_N x) as Hx. pose proof (Byte.of_to_N y) as Hy.
    rewrite Hxy in Hx. congruence. }
  split.
  - intros [= Heq].
    assert (u8 b1 = u8 c1 ∧ u8 b3 = u8 c3
            ∧ Z.land (Z.shiftr (u8 b0) 1) 0x07 = Z.land (Z.shiftr (u8 c0) 1) 0x07
            ∧ Z.land (Z.shiftr (u8 b2) 1) 0x7f = Z.land (Z.shiftr (u8 c2) 1) 0x7f
            ∧ Z.land (Z.shiftr (u8 b4) 1) 0x7f = Z.land (Z.shiftr (u8 c4) 1) 0x7f)
      as (E1 & E3 & E0 & E2 & E4) by lia.
    split_and!; auto.
  - intros (E0 & -> & E2 & -> & E4). by rewrite E0, E2, E4.
Qed.

(** ** The PES header parser, field by field *)

Ltac header_step_keep :=
  match goal with
  | |- context [index ?s ?i] =>
      let H := fresh "Hidx" in
      let Hl := fresh "Hlk" in
      let x := fresh "x" in
      destruct (index_lt s i) as (x & Hl & H);
      [len_lia | rewrite H; clear H; pose proof (u8_range x)]
  | |- context [slice ?s ?lo ?hi] =>
      rewrite (slice_in_range s lo hi) by len_lia
  | |- context [bool_decide ?P] => case_bool_decide
  | |- context [?a >? ?b] => destruct (Z.gtb_spec a b)
  | |- context [if ?c then _ else _] => destruct c eqn:?
  end; header_simpl.

(** The header parsed from a buffer of 7 or more bytes. *)
Lemma NewPESHeader_parsed (b0 b1 b2 b3 b4 b5 b6 : byte) (rest : list byte) :
  let b := b0 :: b1 :: b2 :: b3 :: b4 :: b5 :: b6 :: rest in
  ∃ h, NewPESHeader b = Ret (h, None)
       ∧ packetStartCodePrefix h
         = Z.lor (Z.lor (shl 32 (u8 b0) 16) (shl 32 (u8 b1) 8)) (u8 b2)
       ∧ streamId h = u8 b3
       ∧ pesPacketLength h = Z.lor (shl 16 (u8 b4) 8) (u8 b5)
       ∧ (optionalFieldsExist h = false ∨ len b < 9 →
          dataStartIndex h = 6 ∧ ptsDtsIndicator h = 0 ∧ pts h = 0 ∧ dts h = 0)
       ∧ (optionalFieldsExist h = true → 9 ≤ len b →
          ∃ b7 b8,
            b !! 7%nat = Some b7 ∧ b !! 8%nat = Some b8
            ∧ dataStartIndex h = 9 + u8 b8
            ∧ ptsDtsIndicator h = Z.shiftr (Z.land (u8 b7) 0xc0) 6
            ∧ pts h = (if negb (ptsDtsIndicator h =? 0) && (14 <=? len b)
                       then gots_ExtractTime (take 5 (drop 9 b)) else 0)
            ∧ dts h = (if (ptsDtsIndicator h =? 3) && (19 <=? len b)
                       then gots_ExtractTime (take 5 (drop 14 b)) else 0)).
Proof.
  intros b. subst b. unfold NewPESHeader.
  unfold PTS_DTS_INDICATOR_NONE, PTS_DTS_INDICATOR_BOTH.
  rewrite !CheckLength_decide.
  rewrite bool_decide_true by len_lia.
  cbn [negb index lookup list_lookup mbind go_bind].
  match goal with
  | |- context [optionalFieldsExist ?p] =>
      assert (Hsid : ∀ h, streamId h = u8 b3 →
                optionalFieldsExist h = optionalFieldsExist p)
        by (intros h Hh; unfold optionalFieldsExist; rewrite Hh; reflexivity);
      destruct (optionalFieldsExist p) eqn:Hopt
  end; header_simpl.
  all: repeat header_step_keep.
  all: eexists; (split; [reflexivity|]); header_simpl.
  all: split_and!; try done.
  all: try (intros [Hf|Hf]; [rewrite Hsid in Hf by done; done|]; try lia).
  all: try (intros Hf; rewrite Hsid in Hf by done; done).
  all: intros _ _.
  all: match goal with
       | Hl7 : _ !! 7%nat = Some ?b7, Hl8 : _ !! 8%nat = Some ?b8 |- _ =>
           exists b7, b8; split; [exact Hl7|]; split; [exact Hl8|];
           set (ind := Z.shiftr (Z.land (u8 b7) 192) 6) in *
       | _ => len_lia
       end.
  all: split; [reflexivity|]; split; [reflexivity|].
  all: set (n := len (b0 :: b1 :: b2 :: b3 :: b4 :: b5 :: b6 :: rest)) in *.
  all: destruct (Z.leb_spec 14 n), (Z.leb_spec 19 n); try lia.
  all: destruct (Z.eqb_spec ind 0), (Z.eqb_spec ind 3); try lia.
  all: simpl in *; try done.
Qed.

Lemma big_endian_16 (hi lo : byte) :
  Z.lor (shl 16 (u8 hi) 8) (u8 lo) = u8 hi * 256 + u8 lo.
Proof.
  pose proof (u8_range hi). pose proof (u8_range lo).
  rewrite shl_small by lia. rewrite Z.shiftl_mul_pow2 by lia.
  by rewrite (lor_add_low (u8 hi) (u8 lo) 8) by lia.
Qed.

Lemma big_endian_24 (b0 b1 b2 : byte) :
  Z.lor (Z.lor (shl 32 (u8 b0) 16) (shl 32 (u8 b1) 8)) (u8 b2)
  = u8 b0 * 65536 + u8 b1 * 256 + u8 b2.
Proof.
  pose proof (u8_range b0). pose proof (u8_range b1). pose proof (u8_range b2).
  rewrite !shl_small by lia. rewrite !Z.shiftl_mul_pow2 by lia.
  rewrite (lor_add_low (u8 b0) (u8 b1 * 2 ^ 8) 16) by lia.
  replace (u8 b0 * 2 ^ 16 + u8 b1 * 2 ^ 8)
    with ((u8 b0 * 2 ^ 8 + u8 b1) * 2 ^ 8) by lia.
  rewrite (lor_add_low _ (u8 b2) 8) by lia. lia.
Qed.

(** The two bits of the PTS/DTS indicator. *)
Lemma indicator_bits (b7 : byte) :
  let ind := Z.shiftr (Z.land (u8 b7) 0xc0) 6 in
  0 ≤ ind ≤ 3
  ∧ negb (Z.land ind PTS_DTS_INDICATOR_ONLY_PTS =? 0) = Z.testbit (u8 b7) 7
  ∧ (ind =? PTS_DTS_INDICATOR_BOTH)
    = Z.testbit (u8 b7) 7 && Z.testbit (u8 b7) 6.
Proof.
  destruct b7; vm_compute; split_and!; congruence.
Qed.

(** What a successful parse says about the buffer and the header. *)
Lemma NewPESHeader_success (b : list byte) (h : PESHeader) :
  NewPESHeader b = Ret (h, None) →
  7 ≤ len b
  ∧ 0 ≤ pesPacketLength h < 65536
  ∧ data h = drop (Z.to_nat (dataStartIndex h)) b
  ∧ (optionalFieldsExist h = false ∨ len b < 9 →
     dataStartIndex h = 6 ∧ ptsDtsIndicator h = 0 ∧ pts h = 0 ∧ dts h = 0)
  ∧ (optionalFieldsExist h = true → 9 ≤ len b →
     ∃ b7 b8,
       b !! 7%nat = Some b7 ∧ b !! 8%nat = Some b8
       ∧ dataStartIndex h = 9 + u8 b8
       ∧ ptsDtsIndicator h = Z.shiftr (Z.land (u8 b7) 0xc0) 6
       ∧ pts h = (if negb (ptsDtsIndicator h =? 0) && (14 <=? len b)
                  then gots_ExtractTime (take 5 (drop 9 b)) else 0)
       ∧ dts h = (if (ptsDtsIndicator h =? 3) && (19 <=? len b)
                  then gots_ExtractTime (take 5 (drop 14 b)) else 0)).
Proof.
  intros Hh. destruct (NewPESHeader_ok b h Hh) as (Hlen & _).
  destruct b as [|b0 [|b1 [|b2 [|b3 [|b4 [|b5 [|b6 rest]]]]]]];
    simpl in Hlen; try lia.
  destruct (NewPESHeader_parsed b0 b1 b2 b3 b4 b5 b6 rest)
    as (h1 & Hh1 & _ & _ & Hpl & Hno & Hopt).
  destruct (NewPESHeader_long b0 b1 b2 b3 b4 b5 b6 rest)
    as (h2 & Hh2 & _ & _ & _ & Hdsi & _ & Hdata).
  rewrite Hh in Hh1, Hh2. injection Hh1 as <-. injection Hh2 as <-.
  split; [len_lia|]. split; [|split; [|done]].
  - rewrite Hpl, big_endian_16.
    pose proof (u8_range b4). pose proof (u8_range b5). lia.
  - rewrite Hdata.
    destruct (Z.gtb_spec (len (b0 :: b1 :: b2 :: b3 :: b4 :: b5 :: b6 :: rest))
                (dataStartIndex h)) as [|Hle]; [done|].
    symmetry. apply drop_ge. unfold len in Hle. lia.
Qed.

(** X4. The outcome of [NewPESHeader] is decided by the length of the
    buffer: it panics exactly on 6 bytes, returns an error exactly on fewer,
    and returns a header without an error exactly on 7 bytes or more. *)
Theorem NewPESHeader_outcome (b : list byte) :
  (panics (NewPESHeader b) = true ↔ length b = 6%nat)
  ∧ ((∃ h err, NewPESHeader b = Ret (h, Some err)) ↔ (length b < 6)%nat)
  ∧ ((∃ h, NewPESHeader b = Ret (h, None)) ↔ (7 ≤ length b)%nat).
Proof.
  split; [apply NewPESHeader_panics_iff|]. split; split.
  - intros (h & err & Hh).
    destruct (decide (length b < 6)%nat) as [|Hge]; [done|].
    destruct (decide (length b = 6)%nat) as [H6|Hne].
    { rewrite NewPESHeader_six in Hh by done. done. }
    destruct b as [|b0 [|b1 [|b2 [|b3 [|b4 [|b5 [|b6 rest]]]]]]];
      simpl in *; try lia.
    destruct (NewPESHeader_long b0 b1 b2 b3 b4 b5 b6 rest) as (h' & Hh' & _).
    rewrite Hh' in Hh. done.
  - intros Hlt. eexists _, _. by apply NewPESHeader_short.
  - intros (h & Hh). by destruct (NewPESHeader_ok b h Hh) as (Hlen & _).
  - intros Hlen.
    destruct b as [|b0 [|b1 [|b2 [|b3 [|b4 [|b5 [|b6 rest]]]]]]];
      simpl in *; try lia.
    destruct (NewPESHeader_long b0 b1 b2 b3 b4 b5 b6 rest) as (h' & Hh' & _).
    eauto.
Qed.

(** X5. The fixed part of a header: the start code prefix is the first
    three bytes as a big-endian number, the stream identifier byte 3, the
    declared length bytes 4 and 5 as a big-endian number, and the data
    alignment flag bit 2 of byte 6. *)
Theorem NewPESHeader_fixed_fields (b0 b1 b2 b3 b4 b5 b6 : byte)
    (rest : list byte) :
  ∃ h, NewPESHeader (b0 :: b1 :: b2 :: b3 :: b4 :: b5 :: b6 :: rest)
       = Ret (h, None)
       ∧ PacketStartCodePrefix h = u8 b0 * 65536 + u8 b1 * 256 + u8 b2
       ∧ StreamId h = u8 b3
       ∧ pesPacketLength h = u8 b4 * 256 + u8 b5
       ∧ DataAligned h = Z.testbit (u8 b6) 2.
Proof.
  destruct (NewPESHeader_parsed b0 b1 b2 b3 b4 b5 b6 rest)
    as (h & Hh & Hpre & Hsid & Hpl & _).
  destruct (NewPESHeader_long b0 b1 b2 b3 b4 b5 b6 rest)
    as (h' & Hh' & _ & _ & Hal & _).
  cbv zeta in Hh, Hh'. rewrite Hh in Hh'. injection Hh' as <-.
  exists h. split; [done|]. unfold PacketStartCodePrefix, StreamId, DataAligned.
  rewrite Hpre, Hpl, Hal, big_endian_24, big_endian_16.
  split_and!; try done. by destruct b6.
Qed.

(** X6. A buffer of 7 or 8 bytes is parsed without an error whatever its
    stream identifier, and no optional field is read: the payload starts at
    offset 6, there is no time stamp, the remaining size is the declared
    length, and the payload is the buffer from offset 6 on. *)
Theorem NewPESHeader_short_of_optional_header (b : list byte) (h : PESHeader) :
  NewPESHeader b = Ret (h, None) →
  (length b < 9)%nat →
  dataStartIndex h = 6 ∧ ptsDtsIndicator h = 0
  ∧ HasPTS h = false ∧ HasDTS h = false ∧ PTS h = 0 ∧ DTS h = 0
  ∧ PacketSize h = pesPacketLength h
  ∧ Data h = drop 6 b.
Proof.
  intros Hh Hlen.
  destruct (NewPESHeader_success b h Hh) as (_ & _ & Hdata & Hno & _).
  destruct Hno as (Hdsi & Hind & Hpts & Hdts); [right; len_lia|].
  unfold HasPTS, HasDTS, PTS, DTS, PacketSize, Data.
  rewrite Hdata, Hdsi, Hind, Hpts, Hdts. split_and!; try done. lia.
Qed.

(** X7. The payload of a parsed header is the buffer from the data start
    offset on: empty when the offset is at or beyond the end of the buffer,
    and otherwise what follows the first [dataStartIndex] bytes. *)
Theorem NewPESHeader_payload (b : list byte) (h : PESHeader) :
  NewPESHeader b = Ret (h, None) →
  6 ≤ dataStartIndex h
  ∧ Data h = drop (Z.to_nat (dataStartIndex h)) b
  ∧ len (Data h) = Z.max 0 (len b - dataStartIndex h)
  ∧ (dataStartIndex h ≤ len b →
     take (Z.to_nat (dataStartIndex h)) b ++ Data h = b).
Proof.
  intros Hh.
  destruct (NewPESHeader_success b h Hh) as (_ & _ & Hdata & _).
  destruct (NewPESHeader_ok b h Hh) as (_ & Hdsi & _).
  unfold Data. rewrite Hdata. split_and!.
  - lia.
  - done.
  - unfold len. rewrite length_drop. lia.
  - intros _. apply take_drop.
Qed.

(** X8. When the stream identifier admits optional fields and the buffer has
    9 bytes or more, the payload starts at [9 + b8] where [b8] is byte 8,
    so the remaining size is the declared length less [3 + b8]; [HasPTS] is
    bit 7 of byte 7, and [HasDTS] holds when bits 7 and 6 are both set. *)
Theorem NewPESHeader_optional_header (b : list byte) (h : PESHeader) :
  NewPESHeader b = Ret (h, None) →
  optionalFieldsExist h = true →
  (9 ≤ length b)%nat →
  ∃ b7 b8,
    b !! 7%nat = Some b7 ∧ b !! 8%nat = Some b8
    ∧ dataStartIndex h = 9 + u8 b8
    ∧ PacketSize h = pesPacketLength h - 3 - u8 b8
    ∧ HasPTS h = Z.testbit (u8 b7) 7
    ∧ HasDTS h = Z.testbit (u8 b7) 7 && Z.testbit (u8 b7) 6.
Proof.
  intros Hh Hopt Hlen.
  destruct (NewPESHeader_success b h Hh) as (_ & _ & _ & _ & Hparsed).
  destruct (Hparsed Hopt) as (b7 & b8 & H7 & H8 & Hdsi & Hind & _);
    [len_lia|].
  destruct (indicator_bits b7) as (_ & Hpts & Hdts).
  exists b7, b8. unfold PacketSize, HasPTS, HasDTS.
  rewrite Hdsi, Hind, Hpts, Hdts. split_and!; try done. lia.
Qed.

(** X9. The time stamps of a parsed header.  With [HasPTS] and 14 bytes or
    more, the PTS is the time stamp of the field at offset 9; with [HasDTS]
    and 19 bytes or more, the DTS is the time stamp of the field at offset
    14.  [HasDTS] implies [HasPTS]; without [HasDTS] the DTS is 0; and on
    fewer than 14 bytes both are 0, whatever the flags say. *)
Theorem NewPESHeader_timestamps (b : list byte) (h : PESHeader) :
  NewPESHeader b = Ret (h, None) →
  (HasPTS h = true → 14 ≤ len b →
   PTS h = gots_ExtractTime (take 5 (drop 9 b)))
  ∧ (HasDTS h = true → 19 ≤ len b →
     DTS h = gots_ExtractTime (take 5 (drop 14 b)))
  ∧ (HasDTS h = true → HasPTS h = true)
  ∧ (HasDTS h = false → DTS h = 0)
  ∧ (len b < 14 → PTS h = 0 ∧ DTS h = 0).
Proof.
  intros Hh.
  destruct (NewPESHeader_success b h Hh) as (_ & _ & _ & Hno & Hparsed).
  unfold HasPTS, HasDTS, PTS, DTS.
  destruct (optionalFieldsExist h) eqn:Hopt;
    [destruct (Z.le_gt_cases 9 (len b)) as [H9|H9]|].
  - destruct (Hparsed eq_refl H9)
      as (b7 & b8 & _ & _ & _ & Hind & Hpts & Hdts).
    destruct (indicator_bits b7) as (Hrange & _). cbv zeta in Hrange.
    rewrite <- Hind in Hrange. rewrite Hpts, Hdts.
    unfold PTS_DTS_INDICATOR_ONLY_PTS, PTS_DTS_INDICATOR_BOTH.
    assert (ptsDtsIndicator h = 0 ∨ ptsDtsIndicator h = 1
            ∨ ptsDtsIndicator h = 2 ∨ ptsDtsIndicator h = 3)
      as [-> | [-> | [-> | ->]]] by lia.
    all: destruct (Z.leb_spec 14 (len b)), (Z.leb_spec 19 (len b)); try lia.
    all: simpl; split_and!; try done; try lia.
  - destruct Hno as (_ & -> & -> & ->); [right; lia|].
    split_and!; try done; try lia.
  - destruct Hno as (_ & -> & -> & ->); [by left|].
    split_and!; try done; try lia.
Qed.

(** X10. The remaining size of a parsed header lies between -258 and 65535:
    the declared length is a 16-bit number, and the payload offset is 6 or
    lies between 9 and 264. *)
Theorem PacketSize_range (b : list byte) (h : PESHeader) :
  NewPESHeader b = Ret (h, None) →
  0 ≤ pesPacketLength h < 65536
  ∧ (dataStartIndex h = 6 ∨ 9 ≤ dataStartIndex h ≤ 264)
  ∧ -258 ≤ PacketSize h ≤ 65535.
Proof.
  intros Hh.
  destruct (NewPESHeader_success b h Hh) as (_ & Hpl & _ & Hno & Hparsed).
  assert (Hdsi : dataStartIndex h = 6 ∨ 9 ≤ dataStartIndex h ≤ 264).
  { destruct (optionalFieldsExist h) eqn:Hopt;
      [destruct (Z.le_gt_cases 9 (len b)) as [H9|H9]|].
    - destruct (Hparsed eq_refl H9) as (b7 & b8 & _ & _ & -> & _).
      pose proof (u8_range b8). lia.
    - left. by destruct Hno as [E _]; [right|].
    - left. by destruct Hno as [E _]; [left|]. }
  unfold PacketSize. split_and!; try done; lia.
Qed.

(** ** The accumulator, beyond its collecting life *)

(** X11. In every collecting state the accumulator is either new or has a
    header, an expected size equal to the remaining size of that header,
    and a buffer strictly shorter than the expected size. *)
Theorem collecting_invariant (pa : PESAccumulator) :
  collecting pa →
  pa = new_PESAccumulator
  ∨ ∃ h, pa_PESHeader pa = Some h
         ∧ pa_packetSize pa = PacketSize h
         ∧ 0 ≤ len (pa_Data pa) < pa_packetSize pa.
Proof.
  intros Hc. pose proof (collecting_inv pa Hc) as Hinv.
  destruct (pa_PESHeader pa) as [h|]; [right|by left].
  destruct Hinv as [Hsize Hlt]. exists h. split_and!; try done.
  apply len_nonneg.
Qed.



(** X14. The two ways the first [Write] fails.  On a packet without a PES
    header the accumulator is left new.  On PES bytes shorter than 6 the
    parse error is reported and the accumulator keeps the zero header the
    parser returned, with expected size 0; from then on no [Write] reports
    done: a packet with a non-empty payload gives the overrun error, and
    any other packet leaves the accumulator as it is. *)
Theorem Write_first_failures (pkt : Packet) :
  (∀ err, packet_PESHeader pkt = inr err →
     Write new_PESAccumulator pkt =
       Ret (new_PESAccumulator,
            (false, Some (Wrap "first packet must contain a PES Header" err))))
  ∧ (∀ pesBytes, packet_PESHeader pkt = inl pesBytes →
       (length pesBytes < 6)%nat →
       Write new_PESAccumulator pkt =
         Ret (mkPESAccumulator (Some new_PESHeader) 0 [],
              (false, Some (Wrap "failed PES parse" (ErrTooShort (len pesBytes))))))
  ∧ (∀ d,
       let failed := mkPESAccumulator (Some new_PESHeader) 0 d in
       ∃ pa' r,
         Write failed pkt = Ret (pa', r)
         ∧ reports_done r = false
         ∧ pa_PESHeader pa' = Some new_PESHeader ∧ pa_packetSize pa' = 0
         ∧ (∀ payload, Payload pkt = inl payload → payload ≠ [] →
              r = (true, Some (ErrOverrun 0 (len (d ++ payload)))))
         ∧ (∀ payload, Payload pkt = inl payload → payload = [] →
              pa_Data pa' = d)).
Proof.
  split_and!.
  - intros err Hp. unfold Write. cbn [pa_PESHeader new_PESAccumulator].
    by rewrite Hp.
  - intros pesBytes Hp Hlen. unfold Write. cbn [pa_PESHeader new_PESAccumulator].
    rewrite Hp, NewPESHeader_short by done. done.
  - intros d failed. destruct (Payload pkt) as [payload|err] eqn:Hp.
    + rewrite (Write_next failed pkt payload new_PESHeader eq_refl Hp).
      cbn [pa_Data pa_packetSize failed].
      pose proof (len_nonneg d). pose proof (len_nonneg payload).
      destruct (Z.gtb_spec (len (d ++ payload)) 0) as [Hgt|Hle].
      * eexists _, _. split; [reflexivity|]. cbn.
        split; [done|]. split; [done|]. split; [done|]. split.
        -- by intros ? [= <-] _.
        -- intros ? [= <-] ->. apply app_nil_r.
      * rewrite len_app in Hle.
        assert (payload = []) as -> by (apply len_zero_nil; lia).
        eexists _, _. split; [reflexivity|]. cbn.
        rewrite app_nil_r. split.
        { case_bool_decide as Heq; [|done].
          unfold PacketSize in Heq. simpl in Heq. lia. }
        split; [done|]. split; [done|]. split.
        -- by intros ? [= <-].
        -- done.
    + unfold Write. cbn [pa_PESHeader failed]. rewrite Hp.
      eexists _, _. split; [reflexivity|]. split_and!; done.
Qed.

(** ** The packet loop, packet by packet *)

(** What one turn of the loop sends: on going on, nothing or one record;
    on returning, one error. *)
Lemma readPacketStream_packet_sent (metadataPID : Z) (pa : PESAccumulator)
    (pkt : Packet) (t : turn) :
  readPacketStream_packet metadataPID pa pkt = Ret t →
  match t with
  | Continue _ sent =>
      Forall (λ mo, mo_Error mo = None ∧ is_Some (mo_MetaInfo mo)) sent
  | Return sent => ∃ e, sent = [errInfoChan e]
  end.
Proof.
  unfold readPacketStream_packet. case_bool_decide.
  - destruct (Write pa pkt) as [[pa' [dn [err|]]]|p]; cbn [mbind go_bind];
      [|destruct dn|done].
    + intros [= <-]. eauto.
    + destruct (parseID3 pa') as [[mi|err]|p]; cbn [mbind go_bind]; [| |done].
      * intros [= <-]. repeat constructor. by eexists.
      * intros [= <-]. eauto.
    + intros [= <-]. constructor.
  - intros [= <-]. constructor.
Qed.

(** A packet of another stream changes nothing. *)
Lemma readPacketStream_packet_other (metadataPID : Z) (pa : PESAccumulator)
    (pkt : Packet) :
  PID pkt ≠ metadataPID →
  readPacketStream_packet metadataPID pa pkt = Ret (Continue pa []).
Proof.
  intros Hne. unfold readPacketStream_packet. by rewrite bool_decide_false.
Qed.

Lemma readPacketStream_packets_filter (metadataPID : Z) (pkts : list Packet) :
  ∀ pa,
  readPacketStream_packets metadataPID pa pkts
  = readPacketStream_packets metadataPID pa
      (filter (λ pkt, PID pkt = metadataPID) pkts).
Proof.
  induction pkts as [|pkt pkts IH]; intros pa; [done|].
  destruct (decide (PID pkt = metadataPID)) as [Heq|Hne].
  - rewrite filter_cons_True by done. cbn [readPacketStream_packets].
    destruct (readPacketStream_packet metadataPID pa pkt) as [[pa1 sent|sent]|p];
      cbn [mbind go_bind]; [|done..].
    by rewrite IH.
  - rewrite filter_cons_False by done. cbn [readPacketStream_packets].
    rewrite readPacketStream_packet_other by done. cbn [mbind go_bind].
    rewrite <- IH.
    destruct (readPacketStream_packets metadataPID pa pkts) as [[sent opa]|p];
      done.
Qed.

(** X15. The packets of other streams are ignored: removing from the input
    every complete packet whose PID is not that of the metadata stream
    leaves the messages of [readPacketStream] as they are. *)
Theorem other_streams_ignored (metadataPID : Z) (pkts : list Packet)
    (data : list byte) (e : error) :
  Forall (λ pkt, length pkt = packet_PacketSize) pkts →
  readPacketStream (mkReader (concat pkts ++ data) e) metadataPID
  = readPacketStream
      (mkReader (concat (filter (λ pkt, PID pkt = metadataPID) pkts) ++ data) e)
      metadataPID.
Proof.
  intros Hlen. unfold readPacketStream.
  assert (Hlen' : Forall (λ pkt, length pkt = packet_PacketSize)
                    (filter (λ pkt, PID pkt = metadataPID) pkts)).
  { rewrite Forall_forall in Hlen. apply Forall_forall. intros pkt Hin.
    apply list_elem_of_filter in Hin as [_ Hin]. by apply Hlen. }
  rewrite !readPacketStream_loop_packets by done.
  by rewrite <- readPacketStream_packets_filter.
Qed.

(** The turns of the loop compose: the messages for a sequence of packets
    followed by another are those for the first, followed, unless the
    function returned, by those for the second from the accumulator the
    first left. *)
Lemma readPacketStream_packets_app (metadataPID : Z) (pa : PESAccumulator)
    (pkts1 pkts2 : list Packet) :
  readPacketStream_packets metadataPID pa (pkts1 ++ pkts2) =
    '(sent1, opa) ← readPacketStream_packets metadataPID pa pkts1;
    match opa with
    | None => Ret (sent1, None)
    | Some pa1 =>
        '(sent2, opa2) ← readPacketStream_packets metadataPID pa1 pkts2;
        Ret (sent1 ++ sent2, opa2)
    end.
Proof.
  revert pa. induction pkts1 as [|pkt pkts1 IH]; intros pa.
  - cbn. by destruct (readPacketStream_packets metadataPID pa pkts2)
      as [[sent2 opa2]|p].
  - cbn [app readPacketStream_packets].
    destruct (readPacketStream_packet metadataPID pa pkt) as [[pa1 sent|sent]|p];
      cbn [mbind go_bind]; [|done..].
    rewrite IH.
    destruct (readPacketStream_packets metadataPID pa1 pkts1)
      as [[sent1 [pa2|]]|p]; cbn [mbind go_bind]; [|done..].
    destruct (readPacketStream_packets metadataPID pa2 pkts2)
      as [[sent2 opa2]|p]; cbn [mbind go_bind]; [|done].
    by rewrite app_assoc.
Qed.

(** X16. Messages are sent as the input goes by: the messages for a prefix
    of a sequence of packets are a prefix of the messages for the whole
    sequence, and once the function has returned within the prefix, the
    packets that follow add nothing. *)
Theorem messages_of_prefix (metadataPID : Z) (pa : PESAccumulator)
    (pkts1 pkts2 : list Packet) (sent : list MetaOptional)
    (opa : option PESAccumulator) :
  readPacketStream_packets metadataPID pa (pkts1 ++ pkts2) = Ret (sent, opa) →
  ∃ sent1 opa1,
    readPacketStream_packets metadataPID pa pkts1 = Ret (sent1, opa1)
    ∧ sent1 `prefix_of` sent
    ∧ (opa1 = None → sent = sent1 ∧ opa = None).
Proof.
  rewrite readPacketStream_packets_app.
  destruct (readPacketStream_packets metadataPID pa pkts1)
    as [[sent1 [pa1|]]|p]; cbn [mbind go_bind]; [| |done].
  - destruct (readPacketStream_packets metadataPID pa1 pkts2)
      as [[sent2 opa2]|p]; cbn [mbind go_bind]; [|done].
    intros [= <- <-]. exists sent1, (Some pa1).
    split; [done|]. split; [by eexists|done].
  - intros [= <- <-]. exists sent1, None. split; [done|]. by split.
Qed.



(** The loop over the packets of one accumulator's life that ends in a
    done: nothing is sent before the last packet, and then the buffer is
    decoded. *)
Lemma readPacketStream_packets_feed (metadataPID : Z) (pkts : list Packet) :
  ∀ (pa0 pa : PESAccumulator) (k : nat),
  Forall (λ pkt, PID pkt = metadataPID) pkts →
  feed pa0 pkts = Ret (pa, replicate k (false, None) ++ [(true, None)]) →
  S k = length pkts →
  readPacketStream_packets metadataPID pa0 pkts =
    r ← parseID3 pa;
    match r with
    | inr err => Ret ([errInfoChan err], None)
    | inl mi => Ret ([mkMetaOptional None (Some mi)], Some new_PESAccumulator)
    end.
Proof.
  induction pkts as [|pkt pkts IH]; intros pa0 pa k Hpid Hfeed Hk; [done|].
  apply Forall_cons in Hpid as [Hpkt Hpid].
  cbn [feed readPacketStream_packets] in *. unfold readPacketStream_packet.
  rewrite bool_decide_true by done.
  destruct (Write pa0 pkt) as [[pa1 [dn err]]|p]; cbn [mbind go_bind] in *;
    [|done].
  destruct (terminal (dn, err)) eqn:Hterm.
  - injection Hfeed as <- Hrs. destruct k as [|k]; simpl in Hrs.
    + injection Hrs as -> ->. destruct pkts; [|done].
      destruct (parseID3 pa1) as [[mi|e]|p]; done.
    + injection Hrs as -> -> _. done.
  - destruct dn, err; try done.
    destruct (feed pa1 pkts) as [[pa2 rs]|p] eqn:Hrest;
      cbn [mbind go_bind] in Hfeed; [|done].
    injection Hfeed as -> Hrs. destruct k as [|k]; [done|].
    simpl in Hrs. injection Hrs as ->. simpl in Hk.
    cbn [mbind go_bind]. rewrite (IH pa1 pa k Hpid Hrest) by lia.
    destruct (parseID3 pa) as [[mi|e]|p]; done.
Qed.

(** The life of the accumulator of a unit whose bytes add up. *)
Lemma feed_unit (first : Packet) (rest : list Packet) (pesBytes : list byte)
    (h : PESHeader) (chunks : list (list byte)) :
  packet_PESHeader first = inl pesBytes →
  NewPESHeader pesBytes = Ret (h, None) →
  payloads rest chunks →
  Forall (λ c, c ≠ []) chunks →
  len (Data h) + len (concat chunks) = PacketSize h →
  ∃ k, feed new_PESAccumulator (first :: rest)
       = Ret (holding h (Data h ++ concat chunks),
              replicate k (false, None) ++ [(true, None)])
       ∧ S k = length (first :: rest).
Proof.
  intros Hfirst Hh Hrest Hne Hsum.
  pose proof (len_nonneg (Data h)). pose proof (len_nonneg (concat chunks)).
  cbn [feed].
  rewrite (Write_first new_PESAccumulator first pesBytes h eq_refl Hfirst Hh).
  cbn [mbind go_bind].
  destruct (Z.gtb_spec (len (Data h)) (PacketSize h)); [lia|].
  destruct (decide (len (Data h) = PacketSize h)) as [Heq|Hlt].
  - rewrite bool_decide_true by done. cbn [terminal]. exists 0%nat.
    assert (chunks = []) as ->.
    { destruct chunks as [|c chunks]; [done|].
      apply Forall_cons in Hne as [Hc _]. simpl in Hsum.
      rewrite len_app in Hsum. pose proof (len_nonneg c).
      pose proof (len_nonneg (concat chunks)).
      destruct Hc. apply len_zero_nil. lia. }
    apply Forall2_nil_inv_r in Hrest as ->. simpl. by rewrite app_nil_r.
  - rewrite bool_decide_false by done. cbn [terminal].
    destruct (feed_exact h rest chunks Hrest (Data h)) as (k & Hk & Hlast);
      [lia..|].
    rewrite Hk. cbn [mbind go_bind]. exists (S k). split; [done|].
    simpl. by rewrite (Hlast Hne).
Qed.

(** X18. A unit gives one record.  Let the packets of the metadata stream
    carry a unit: a first packet whose header [h] parses, then packets with
    non-empty payload chunks, the bytes adding up to the remaining size of
    [h]; and let the decoder read the tags [tags] off the reassembled
    bytes.  Then the loop sends exactly one message for these packets, the
    record with the PTS of [h] and with every tag value split by
    [parseValue], and goes on with a new accumulator. *)
Theorem unit_gives_record (metadataPID : Z) (first : Packet)
    (rest : list Packet) (pesBytes : list byte) (h : PESHeader)
    (chunks : list (list byte)) (tags : gmap string string) :
  packet_PESHeader first = inl pesBytes →
  NewPESHeader pesBytes = Ret (h, None) →
  payloads rest chunks →
  Forall (λ c, c ≠ []) chunks →
  len (Data h) + len (concat chunks) = PacketSize h →
  Forall (λ pkt, PID pkt = metadataPID) (first :: rest) →
  easyid3_ReadID3 (Data h ++ concat chunks) = inl tags →
  readPacketStream_packets metadataPID new_PESAccumulator (first :: rest)
  = Ret ([mkMetaOptional None
            (Some (mkMetaInfo (PTS h) (parseValue <$> tags)))],
         Some new_PESAccumulator)
  ∧ dom (parseValue <$> tags) = dom tags.
Proof.
  intros Hfirst Hh Hrest Hne Hsum Hpid Htags.
  destruct (feed_unit first rest pesBytes h chunks Hfirst Hh Hrest Hne Hsum)
    as (k & Hfeed & Hk).
  split; [|apply dom_fmap_L].
  rewrite (readPacketStream_packets_feed metadataPID (first :: rest)
             new_PESAccumulator _ k Hpid Hfeed Hk).
  unfold parseID3. cbn [pa_Data pa_PESHeader holding]. by rewrite Htags.
Qed.

Lemma errors_Is_Wrap_EOF (msg : string) (err : error) :
  errors_Is (Wrap msg err) io_EOF = errors_Is err io_EOF.
Proof. cbn [errors_Is]. by rewrite decide_False. Qed.

(** X19. An error of the accumulator or of the decoder ends the stream.
    Let the loop handle the complete packets [pkts] without returning,
    sending [sent], and let the next complete packet [pkt] belong to the
    metadata stream.  If the [Write] of [pkt] reports an error, or reports
    done and the decoder then fails, [Read] returns the records of [sent]
    and the wrapped error; except that it returns no error when the error
    is or wraps [io.EOF]. *)
Theorem Read_fatal_error (r0 r : Reader) (metadataPID : Z)
    (pkts : list Packet) (pkt : Packet) (tail : list byte)
    (sent : list MetaOptional) (pa pa' : PESAccumulator) (dn : bool)
    (werr : option error) :
  getStreamPID r0 = (inl metadataPID, r) →
  rd_data r = concat pkts ++ pkt ++ tail →
  Forall (λ pkt, length pkt = packet_PacketSize) pkts →
  length pkt = packet_PacketSize →
  readPacketStream_packets metadataPID new_PESAccumulator pkts
  = Ret (sent, Some pa) →
  PID pkt = metadataPID →
  Write pa pkt = Ret (pa', (dn, werr)) →
  (∀ err, werr = Some err →
     Read r0 = Ret (mo_MetaInfo <$> sent,
                    if errors_Is err io_EOF then None
                    else Some (Wrap "failed accumulation, bailing" err)))
  ∧ (∀ err, werr = None → dn = true →
       easyid3_ReadID3 (pa_Data pa') = inr err →
       Read r0 = Ret (mo_MetaInfo <$> sent,
                      if errors_Is err io_EOF then None
                      else Some (Wrap "failed ID3 parse" err))).
Proof.
  intros Hpid Hdata Hpkts Hlen Hsent Hpkt Hw.
  pose proof (readPacketStream_packets_records _ _ _ _ _ Hsent) as Hrecs.
  assert (Hloop : ∀ e,
            readPacketStream_packet metadataPID pa pkt
            = Ret (Return [errInfoChan e]) →
            Read r0 = Ret (mo_MetaInfo <$> sent,
                           if errors_Is e io_EOF then None else Some e)).
  { intros e Hturn. unfold Read, ReadStream, readPacketStream.
    rewrite Hpid. destruct r as [data e0]. cbn in Hdata. subst data.
    replace (concat pkts ++ pkt ++ tail) with (concat (pkts ++ [pkt]) ++ tail)
      by (rewrite concat_app; simpl; by rewrite app_nil_r, <- app_assoc).
    rewrite readPacketStream_loop_packets
      by (apply Forall_app; split; [done|by constructor]).
    rewrite readPacketStream_packets_app, Hsent. cbn [mbind go_bind].
    cbn [readPacketStream_packets]. rewrite Hturn. cbn [mbind go_bind].
    by rewrite Read_range_records. }
  split.
  - intros err ->. rewrite <- errors_Is_Wrap_EOF with (msg := "failed accumulation, bailing"%string).
    apply Hloop. unfold readPacketStream_packet.
    rewrite bool_decide_true by done. rewrite Hw. done.
  - intros err -> -> Hid3.
    rewrite <- errors_Is_Wrap_EOF with (msg := "failed ID3 parse"%string).
    apply Hloop. unfold readPacketStream_packet.
    rewrite bool_decide_true by done. rewrite Hw. cbn [mbind go_bind].
    unfold parseID3. rewrite Hid3. done.
Qed.

(** ** The blocking pipeline and the channel *)

(** One turn of the loop of [readPackets], by what the read gave. *)
Lemma readPackets_loop_turn (metadataPID : Z) (r : Reader)
    (pesAccumulator : PESAccumulator) (meta : list (option MetaInfo)) :
  readPackets_loop metadataPID r pesAccumulator meta =
    match io_ReadFull r packet_PacketSize with
    | (inr err, _) =>
        if errors_Is err io_EOF || errors_Is err io_ErrUnexpectedEOF
        then Ret (meta, None)
        else Ret (meta, Some (Wrap "failed packet read" err))
    | (inl pkt, r') =>
        match readPackets_packet metadataPID pesAccumulator meta pkt with
        | Panic p => Panic p
        | Ret (inr result) => Ret result
        | Ret (inl (pa, meta')) => readPackets_loop metadataPID r' pa meta'
        end
    end.
Proof.
  rewrite readPackets_loop_equation_1. unfold inspect.
  enough (Hgen : ∀ (x : (list byte + error) * Reader)
                   (e : io_ReadFull r packet_PacketSize = x),
            readPackets_loop_unfold_clause_1 metadataPID r (exist _ x e)
              pesAccumulator meta =
            match x with
            | (inr err, _) =>
                if errors_Is err io_EOF || errors_Is err io_ErrUnexpectedEOF
                then Ret (meta, None)
                else Ret (meta, Some (Wrap "failed packet read" err))
            | (inl pkt, r') =>
                match readPackets_packet metadataPID pesAccumulator meta pkt with
                | Panic p => Panic p
                | Ret (inr result) => Ret result
                | Ret (inl (pa, meta')) =>
                    readPackets_loop metadataPID r' pa meta'
                end
            end) by apply Hgen.
  intros [[pkt|err] r1] e.
  - rewrite readPackets_loop_clause_1_equation_1.
    destruct (readPackets_packet metadataPID pesAccumulator meta pkt)
      as [[[pa meta']|result]|p].
    + by rewrite readPackets_loop_clause_1_clause_2_equation_1.
    + by rewrite readPackets_loop_clause_1_clause_2_equation_2.
    + by rewrite readPackets_loop_clause_1_clause_2_equation_3.
  - by rewrite readPackets_loop_clause_1_equation_2.
Qed.

(** One turn of either loop on the same packet. *)
Lemma readPackets_packet_turn (metadataPID : Z) (pa : PESAccumulator)
    (meta : list (option MetaInfo)) (pkt : Packet) :
  readPackets_packet metadataPID pa meta pkt =
    t ← readPacketStream_packet metadataPID pa pkt;
    match t with
    | Continue pa' sent => Ret (inl (pa', meta ++ (mo_MetaInfo <$> sent)))
    | Return sent =>
        Ret (inr (meta, head sent ≫= mo_Error))
    end.
Proof.
  unfold readPackets_packet, readPacketStream_packet. case_bool_decide.
  - destruct (Write pa pkt) as [[pa' [dn [err|]]]|p]; cbn [mbind go_bind];
      [done|destruct dn|done].
    + destruct (parseID3 pa') as [[mi|err]|p]; cbn [mbind go_bind]; done.
    + cbn. by rewrite app_nil_r.
  - cbn. by rewrite app_nil_r.
Qed.

Lemma Read_range_app_records (sent rest : list MetaOptional) :
  Forall (λ mo, mo_Error mo = None ∧ is_Some (mo_MetaInfo mo)) sent →
  ∀ meta,
  Read_range (sent ++ rest) meta
  = Read_range rest (meta ++ (mo_MetaInfo <$> sent)).
Proof.
  induction 1 as [|mo sent [Hmo _] _ IH]; intros meta.
  - cbn. by rewrite app_nil_r.
  - cbn [app Read_range]. rewrite Hmo, IH. cbn. by rewrite <- app_assoc.
Qed.

Lemma readPackets_loop_Read (metadataPID : Z) (n : nat) :
  ∀ r pa meta,
  (length (rd_data r) < n)%nat →
  (result ← readPackets_loop metadataPID r pa meta; Ret (Read_error result))
  = (msgs ← readPacketStream_loop metadataPID r pa; Ret (Read_range msgs meta)).
Proof.
  induction n as [|n IH]; intros r pa meta Hn; [lia|].
  rewrite readPackets_loop_turn, readPacketStream_loop_turn.
  unfold io_ReadFull. case_decide as Hlen.
  - rewrite readPackets_packet_turn.
    destruct (readPacketStream_packet metadataPID pa _) as [t|p] eqn:Hturn;
      cbn [mbind go_bind]; [|done].
    pose proof (readPacketStream_packet_sent _ _ _ _ Hturn) as Hsent.
    destruct t as [pa1 sent1|sent1].
    + rewrite IH
        by (cbn [rd_data]; rewrite length_drop; unfold packet_PacketSize in *; lia).
      destruct (readPacketStream_loop metadataPID _ pa1) as [rest|p];
        cbn [mbind go_bind]; [|done].
      by rewrite Read_range_app_records.
    + destruct Hsent as [e ->]. cbn. by destruct (errors_Is e io_EOF).
  - destruct (_ || _) eqn:Hend; cbn.
    + done.
    + rewrite decide_False by done.
      apply orb_false_iff in Hend as [-> _]. done.
Qed.

(** X20. The blocking [readPackets] and the channel agree: what [Read]
    collects from the messages of [readPacketStream] is the result of
    [readPackets] on the same input, records and error, except that an
    error that is or wraps [io.EOF] is no error for [Read]; both panic on
    the same inputs. *)
Theorem readPackets_agrees_with_channel (r : Reader) (metadataPID : Z) :
  (msgs ← readPacketStream r metadataPID; Ret (Read_range msgs []))
  = (result ← readPackets r metadataPID; Ret (Read_error result)).
Proof.
  symmetry. unfold readPackets, readPacketStream.
  apply (readPackets_loop_Read metadataPID (S (length (rd_data r)))). lia.
Qed.

(** ** Tag values *)

Lemma parseValue_not_one_NUL (v : string) :
  count_NUL v ≠ 1%nat → parseValue v = {| Prefix := EmptyString; Value_ := v |}.
Proof.
  intros Hne. pose proof (strings_Split_count v) as Hlen. unfold parseValue.
  destruct (strings_Split v NUL) as [|s0 [|s1 [|s2 l]]]; simpl in Hlen;
    try done. lia.
Qed.

(** X21. What [parseValue] returns, for every value: the prefix never
    holds a NUL byte; the value holds one exactly when the input has two or
    more; a non-empty prefix means that the input is prefix, NUL, value;
    and a single NUL at the very start is dropped, so that the result is
    the one of the value without it. *)
Theorem parseValue_result (v : string) :
  count_NUL (Prefix (parseValue v)) = 0%nat
  ∧ (count_NUL (Value_ (parseValue v)) = 0%nat ↔ (count_NUL v ≤ 1)%nat)
  ∧ (Prefix (parseValue v) ≠ EmptyString →
     v = (Prefix (parseValue v) +:+ String NUL (Value_ (parseValue v)))%string)
  ∧ (count_NUL v = 0%nat → parseValue (String NUL v) = parseValue v).
Proof.
  destruct (decide (count_NUL v = 1%nat)) as [H1|Hne].
  - destruct (strings_Split_one_NUL v H1) as (p & q & Hv & Hp & Hq & Hs).
    assert (Hpv : parseValue v = {| Prefix := p; Value_ := q |})
      by (unfold parseValue; by rewrite Hs).
    rewrite Hpv. cbn [Prefix Value_]. split_and!; try done; lia.
  - rewrite (parseValue_not_one_NUL v Hne). cbn [Prefix Value_].
    split_and!; try done; [lia|].
    intros H0. unfold parseValue at 1. cbn [strings_Split].
    rewrite decide_True by done. by rewrite strings_Split_no_NUL.
Qed.

(** ** Whole units *)

Lemma carries_record (metadataPID : Z) (pkts : list Packet) (mi : MetaInfo) :
  carries metadataPID pkts mi →
  readPacketStream_packets metadataPID new_PESAccumulator pkts
  = Ret ([mkMetaOptional None (Some mi)], Some new_PESAccumulator).
Proof.
  intros (first & rest & pesBytes & h & chunks & tags & -> & Hpid & Hfirst
          & Hh & Hrest & Hne & Hsum & Htags & ->).
  destruct (feed_unit first rest pesBytes h chunks Hfirst Hh Hrest Hne Hsum)
    as (k & Hfeed & Hk).
  rewrite (readPacketStream_packets_feed metadataPID (first :: rest)
             new_PESAccumulator _ k Hpid Hfeed Hk).
  unfold parseID3. cbn [pa_Data pa_PESHeader holding]. by rewrite Htags.
Qed.

Lemma units_records (metadataPID : Z) (units : list (list Packet))
    (mis : list MetaInfo) :
  Forall2 (carries metadataPID) units mis →
  readPacketStream_packets metadataPID new_PESAccumulator (concat units)
  = Ret ((λ mi, mkMetaOptional None (Some mi)) <$> mis,
         Some new_PESAccumulator).
Proof.
  induction 1 as [|pkts mi units mis Hc _ IH]; [done|].
  cbn [concat]. rewrite readPacketStream_packets_app.
  rewrite (carries_record _ _ _ Hc). cbn [mbind go_bind]. rewrite IH. done.
Qed.

(** X25. An input of whole units gives their records, in order.  Let the
    input behind the program tables consist of the packets of a sequence of
    units of the metadata stream, each complete packet 188 bytes long,
    followed by fewer than 188 bytes at which the source ends regularly.
    Then [Read] returns one record for each unit, in the order of the
    units, and no error. *)
Theorem Read_units (r0 r : Reader) (metadataPID : Z)
    (units : list (list Packet)) (mis : list MetaInfo) (rest : list byte) :
  getStreamPID r0 = (inl metadataPID, r) →
  rd_data r = concat (concat units) ++ rest →
  Forall (Forall (λ pkt, length pkt = packet_PacketSize)) units →
  (length rest < packet_PacketSize)%nat →
  rd_end r = io_EOF →
  Forall2 (carries metadataPID) units mis →
  Read r0 = Ret (Some <$> mis, None).
Proof.
  intros Hpid Hdata Hlen Hrest Hend Hunits.
  unfold Read, ReadStream, readPacketStream. rewrite Hpid.
  destruct r as [data e]. cbn in Hdata, Hend. subst data e.
  rewrite readPacketStream_loop_packets by by apply Forall_concat.
  rewrite (units_records _ _ _ Hunits).
  rewrite readPacketStream_loop_turn, io_ReadFull_short by done.
  assert (Hrecs : Forall (λ mo, mo_Error mo = None ∧ is_Some (mo_MetaInfo mo))
                    ((λ mi, mkMetaOptional None (Some mi)) <$> mis)).
  { apply Forall_fmap, Forall_true. intros mi. split; [done|by eexists]. }
  assert (Hmap : mo_MetaInfo <$> ((λ mi, mkMetaOptional None (Some mi)) <$> mis)
                 = Some <$> mis).
  { rewrite <- list_fmap_compose. done. }
  match goal with
  | |- context [errors_Is ?err io_EOF || errors_Is ?err io_ErrUnexpectedEOF] =>
      assert (Herr : errors_Is err io_EOF || errors_Is err io_ErrUnexpectedEOF
                     = true)
        by (destruct rest; [reflexivity|rewrite decide_True by done; reflexivity]);
      rewrite Herr
  end.
  cbn [mbind go_bind]. rewrite Read_range_records by done.
  by rewrite Hmap.
Qed.

(** X26. What is printed for a tag value: [Value.String] of [parseValue]
    shows a value with exactly one NUL byte with a slash in the place of
    the NUL, and any other value unchanged behind a slash. *)
Theorem Value_String_parseValue (v : string) :
  (count_NUL v = 1%nat →
   ∃ p q, v = (p +:+ String NUL q)%string
          ∧ Value_String (parseValue v) = (p +:+ String "/" q)%string)
  ∧ (count_NUL v ≠ 1%nat →
     Value_String (parseValue v) = String "/" v).
Proof.
  split.
  - intros H1. destruct (strings_Split_one_NUL v H1) as (p & q & Hv & _ & _ & Hs).
    exists p, q. split; [done|]. unfold parseValue. rewrite Hs. done.
  - intros Hne. by rewrite (parseValue_not_one_NUL v Hne).
Qed.

End Collaborators.

(** * The properties on sample inputs *)

(** C9 at a buffer of 3 bytes. *)
Lemma NewPESHeader_too_short_witness :
  NewPESHeader sample_ExtractTime [x00; x00; x01]
  = Ret (new_PESHeader, Some (ErrTooShort 3))
  ∧ ∀ h, NewPESHeader sample_ExtractTime [x00; x00; x01] ≠ Ret (h, None).
Proof.
  apply (NewPESHeader_too_short sample_ExtractTime [x00; x00; x01]).
  simpl. lia.
Defined.

(** C2 at a unit of 5 bytes in three packets: 2 bytes behind the header,
    then chunks of 1 and 2 bytes. *)
Lemma accumulator_done_exactly_once_witness :
  ∃ pa rs,
    feed sample_ExtractTime sample_PESHeader sample_Payload new_PESAccumulator
      [sample_first; sample_ts ++ [x33]; sample_ts ++ [x04; x00]]
    = Ret (pa, rs)
    ∧ count_done rs = 1%nat
    ∧ last rs = Some (true, None)
    ∧ Forall (λ r, r.2 = None) rs
    ∧ pa_Data pa = [x49; x44; x33; x04; x00]
    ∧ (Forall (λ c, c ≠ []) [[x33]; [x04; x00]] → length rs = 3%nat).
Proof.
  refine (proj1 (proj2
    (accumulator_done_exactly_once sample_ExtractTime sample_PESHeader
       sample_Payload sample_first
       [sample_ts ++ [x33]; sample_ts ++ [x04; x00]]
       sample_pesBytes sample_header [[x33]; [x04; x00]] _ _ _ _))).
  - reflexivity.
  - vm_compute. reflexivity.
  - repeat constructor.
  - vm_compute. reflexivity.
Defined.

(** C3 at the new accumulator and [sample_first], and at a unit of 5 bytes
    whose third packet takes the buffer from 3 to 7 bytes. *)
Lemma accumulator_overrun_witness :
  (∃ pa' done err,
     Write sample_ExtractTime sample_PESHeader sample_Payload
       new_PESAccumulator sample_first = Ret (pa', (done, err))
     ∧ (is_overrun err = true ↔ pa_packetSize pa' < len (pa_Data pa')))
  ∧ (∃ pa,
       feed sample_ExtractTime sample_PESHeader sample_Payload new_PESAccumulator
         (sample_first :: [sample_ts ++ [x33]]
            ++ (sample_ts ++ [x04; x00; x00; x00]) :: [sample_ts ++ [x01]])
       = Ret (pa, replicate 2 (false, None)
                  ++ [(true, Some (ErrOverrun 5 (len (pa_Data pa))))])
       ∧ pa_Data pa = [x49; x44; x33; x04; x00; x00; x00]).
Proof.
  destruct (accumulator_overrun sample_ExtractTime sample_PESHeader sample_Payload)
    as [Hwrite Hfeed].
  split.
  - destruct (Hwrite new_PESAccumulator sample_first) as (pa' & dn & err & Hw & Hiff & _).
    + constructor.
    + intros _ pesBytes Hp. vm_compute in Hp. injection Hp as <-. simpl. lia.
    + eauto.
  - destruct (Hfeed sample_first [sample_ts ++ [x33]]
                (sample_ts ++ [x04; x00; x00; x00]) [sample_ts ++ [x01]]
                sample_pesBytes sample_header [[x33]] [x04; x00; x00; x00])
      as (pa & Hf & Hd & _).
    + reflexivity.
    + vm_compute. reflexivity.
    + repeat constructor.
    + reflexivity.
    + vm_compute. reflexivity.
    + vm_compute. reflexivity.
    + exists pa. split; [exact Hf|exact Hd].
Defined.

(** C10 at a header with declared length 0 and payload offset 9. *)
Lemma zero_length_header_witness :
  PacketSize sample_zero_header < 0
  ∧ Write sample_ExtractTime sample_PESHeader sample_Payload
      new_PESAccumulator sample_zero
    = Ret (mkPESAccumulator (Some sample_zero_header) (-3) [],
           (true, Some (ErrOverrun (-3) 0))).
Proof.
  refine (proj1 (proj2
    (zero_length_header sample_ExtractTime sample_PESHeader sample_Payload
       sample_zero sample_zero_pesBytes sample_zero_header _ _ _)) _).
  - reflexivity.
  - vm_compute. reflexivity.
  - reflexivity.
  - vm_compute. discriminate.
Defined.

(** C7 at an input of one complete packet, which holds a whole unit,
    followed by 2 bytes of a packet that the source ends in. *)
Lemma Read_at_end_of_input_witness :
  Read sample_ExtractTime sample_PESHeader sample_Payload sample_PID
    sample_ReadID3 sample_getStreamPID
    (mkReader (concat [sample_unit] ++ [x47; x41]) io_EOF)
  = Ret ([Some sample_record], None).
Proof.
  refine (proj1 (proj2 (proj2 (proj2
    (Read_at_end_of_input sample_ExtractTime sample_PESHeader sample_Payload
       sample_PID sample_ReadID3 sample_getStreamPID
       (mkReader (concat [sample_unit] ++ [x47; x41]) io_EOF)
       (mkReader (concat [sample_unit] ++ [x47; x41]) io_EOF)
       256 [sample_unit] [x47; x41]
       [mkMetaOptional None (Some sample_record)] new_PESAccumulator
       io_ErrUnexpectedEOF (mkReader [] io_EOF) _ _ _ _ _ _)))) _).
  - reflexivity.
  - reflexivity.
  - repeat constructor.
  - vm_compute. lia.
  - vm_compute. reflexivity.
  - vm_compute. reflexivity.
  - reflexivity.
Defined.

(** * The stream locator *)

Section LocatorProperties.

Variables PAT PMT ES : Type.
Variable psi_ReadPAT : Reader → (PAT + error) * Reader.
Variable ProgramMap : PAT → list (Z * Z).
Variable psi_ReadPMT : Reader → Z → (PMT + error) * Reader.
Variable ElementaryStreams : PMT → list ES.
Variable StreamType : ES → Z.
Variable ElementaryPid : ES → Z.

Local Abbreviation streams := (getStreamPID_streams ES StreamType ElementaryPid).
Local Abbreviation programs :=
  (getStreamPID_programs PMT ES psi_ReadPMT ElementaryStreams StreamType
     ElementaryPid).
Local Abbreviation locate :=
  (getStreamPID PAT PMT ES psi_ReadPAT ProgramMap psi_ReadPMT
     ElementaryStreams StreamType ElementaryPid).

(** The inner loop stops at the first stream of the metadata type. *)
Lemma getStreamPID_streams_first (ess : list ES) (metadataPID : Z) :
  (Forall (λ es, StreamType es ≠ IVSMetadataStreamType) ess
   ∧ streams ess metadataPID = metadataPID)
  ∨ ∃ pre es post,
      ess = pre ++ es :: post
      ∧ Forall (λ es, StreamType es ≠ IVSMetadataStreamType) pre
      ∧ StreamType es = IVSMetadataStreamType
      ∧ streams ess metadataPID = ElementaryPid es.
Proof.
  induction ess as [|es ess IH]; [left; by split|].
  cbn [getStreamPID_streams]. case_bool_decide as Hty.
  - right. exists [], es, ess. by repeat split.
  - destruct IH as [[Hnone Heq]|(pre & es' & post & -> & Hpre & Hes & Heq)].
    + left. split; [by constructor|done].
    + right. exists (es :: pre), es', post. split_and!; try done.
      by constructor.
Qed.

Lemma getStreamPID_programs_found (pmap : list (Z * Z)) :
  ∀ r metadataPID r',
  programs r pmap 0 = (inl metadataPID, r') →
  metadataPID ≠ 0 →
  ∃ entry r1 pmt pre es post,
    entry ∈ pmap
    ∧ psi_ReadPMT r1 entry.2 = (inl pmt, r')
    ∧ ElementaryStreams pmt = pre ++ es :: post
    ∧ Forall (λ es, StreamType es ≠ IVSMetadataStreamType) pre
    ∧ StreamType es = IVSMetadataStreamType
    ∧ ElementaryPid es = metadataPID.
Proof.
  induction pmap as [|[n pid] pmap IH]; intros r metadataPID r' Hp Hne.
  { injection Hp as <- _. done. }
  cbn [getStreamPID_programs] in Hp.
  destruct (psi_ReadPMT r pid) as [[pmt|err] r1] eqn:Hpmt; [|done].
  case_bool_decide as Hm.
  - injection Hp as <- <-.
    destruct (getStreamPID_streams_first (ElementaryStreams pmt) 0)
      as [[_ Heq]|(pre & es & post & Hess & Hpre & Hes & Heq)]; [done|].
    exists (n, pid), r, pmt, pre, es, post. split_and!; try done.
    apply list_elem_of_here.
  - rewrite Hm in Hp.
    destruct (IH _ _ _ Hp Hne) as (entry & r2 & pmt' & pre & es & post & Hin & Hrest).
    exists entry, r2, pmt', pre, es, post. split; [|done].
    by apply list_elem_of_further.
Qed.

(** X22. When [getStreamPID] succeeds, the PID is not 0 and is the PID of
    the first stream of type 21 in the table of a program of the program
    map, and the reader is left behind that table. *)
Theorem getStreamPID_found (r r' : Reader) (metadataPID : Z) :
  locate r = (inl metadataPID, r') →
  metadataPID ≠ 0
  ∧ ∃ pat r0 entry r1 pmt pre es post,
      psi_ReadPAT r = (inl pat, r0)
      ∧ entry ∈ ProgramMap pat
      ∧ psi_ReadPMT r1 entry.2 = (inl pmt, r')
      ∧ ElementaryStreams pmt = pre ++ es :: post
      ∧ Forall (λ es, StreamType es ≠ IVSMetadataStreamType) pre
      ∧ StreamType es = IVSMetadataStreamType
      ∧ ElementaryPid es = metadataPID.
Proof.
  unfold getStreamPID.
  destruct (psi_ReadPAT r) as [[pat|err] r0] eqn:Hpat; [|done].
  destruct (programs r0 (ProgramMap pat) 0) as [[m|err] r2] eqn:Hprog; [|done].
  case_bool_decide as Hm; [done|]. intros [= <- <-]. split; [done|].
  destruct (getStreamPID_programs_found _ _ _ _ Hprog Hm)
    as (entry & r1 & pmt & pre & es & post & Hrest).
  exists pat, r0, entry, r1, pmt, pre, es, post. by split.
Qed.

Lemma getStreamPID_programs_error (pmap : list (Z * Z)) :
  ∀ r err r',
  programs r pmap 0 = (inr err, r') →
  ∃ entry r1 e,
    entry ∈ pmap ∧ psi_ReadPMT r1 entry.2 = (inr e, r')
    ∧ err = Wrap "failed ReadPMT" e.
Proof.
  induction pmap as [|[n pid] pmap IH]; intros r err r' Hp; [done|].
  cbn [getStreamPID_programs] in Hp.
  destruct (psi_ReadPMT r pid) as [[pmt|e] r1] eqn:Hpmt.
  - case_bool_decide as Hm; [done|].
    rewrite Hm in Hp.
    destruct (IH _ _ _ Hp) as (entry & r2 & e & Hin & Hrest).
    exists entry, r2, e. split; [|done]. by apply list_elem_of_further.
  - injection Hp as <- <-. exists (n, pid), r, e.
    split; [apply list_elem_of_here|done].
Qed.

(** X23. When [getStreamPID] fails, the error is the wrapped error of
    [psi.ReadPAT], or the wrapped error of a [psi.ReadPMT] for a program of
    the program map, or "no metadata stream found"; and it is the last of
    these when every table reads and no stream has type 21. *)
Theorem getStreamPID_not_found (r r' : Reader) (err : error) :
  locate r = (inr err, r') →
  ((∃ e, psi_ReadPAT r = (inr e, r') ∧ err = Wrap "failed ReadPAT" e)
   ∨ (∃ pat r0 entry r1 e,
        psi_ReadPAT r = (inl pat, r0) ∧ entry ∈ ProgramMap pat
        ∧ psi_ReadPMT r1 entry.2 = (inr e, r')
        ∧ err = Wrap "failed ReadPMT" e)
   ∨ err = errors_New "no metadata stream found")
  ∧ ((∀ r1 pid, ∃ pmt r2,
        psi_ReadPMT r1 pid = (inl pmt, r2)
        ∧ Forall (λ es, StreamType es ≠ IVSMetadataStreamType)
            (ElementaryStreams pmt)) →
     (∃ pat r0, psi_ReadPAT r = (inl pat, r0)) →
     err = errors_New "no metadata stream found").
Proof.
  unfold getStreamPID.
  destruct (psi_ReadPAT r) as [[pat|e] r0] eqn:Hpat.
  - destruct (programs r0 (ProgramMap pat) 0) as [[m|e] r2] eqn:Hprog.
    + case_bool_decide as Hm; [|done]. intros [= <- <-].
      split; [by right; right|done].
    + intros [= <- <-].
      destruct (getStreamPID_programs_error _ _ _ _ Hprog)
        as (entry & r1 & e' & Hin & Hpmt & ->).
      split.
      * right; left. by exists pat, r0, entry, r1, e'.
      * intros Hall _. destruct (Hall r1 entry.2) as (pmt & r3 & Hok & _).
        rewrite Hok in Hpmt. done.
  - intros [= <- <-]. split; [left; by exists e|].
    intros _ (pat & r1 & Hp). done.
Qed.

Section ReadWithLocator.

Variable gots_ExtractTime : list byte → Z.
Variable packet_PESHeader : Packet → list byte + error.
Variable Payload : Packet → list byte + error.
Variable PID : Packet → Z.
Variable easyid3_ReadID3 : list byte → gmap string string + error.


End ReadWithLocator.

End LocatorProperties.

(** * The further properties on sample inputs *)

(** X6 at a buffer of 8 bytes with stream identifier [BD]. *)
Lemma NewPESHeader_short_of_optional_header_witness :
  let h := mkPESHeader 1 false 189 5 6 0 0 0 [x80; x80] in
  dataStartIndex h = 6 ∧ ptsDtsIndicator h = 0
  ∧ HasPTS h = false ∧ HasDTS h = false ∧ PTS h = 0 ∧ DTS h = 0
  ∧ PacketSize h = pesPacketLength h
  ∧ Data h = drop 6 [x00; x00; x01; xbd; x00; x05; x80; x80].
Proof.
  apply (NewPESHeader_short_of_optional_header sample_ExtractTime
           [x00; x00; x01; xbd; x00; x05; x80; x80]).
  - vm_compute. reflexivity.
  - simpl. lia.
Defined.

(** X7 at [sample_pesBytes]. *)
Lemma NewPESHeader_payload_witness :
  6 ≤ dataStartIndex sample_header
  ∧ Data sample_header
    = drop (Z.to_nat (dataStartIndex sample_header)) sample_pesBytes
  ∧ len (Data sample_header)
    = Z.max 0 (len sample_pesBytes - dataStartIndex sample_header)
  ∧ (dataStartIndex sample_header ≤ len sample_pesBytes →
     take (Z.to_nat (dataStartIndex sample_header)) sample_pesBytes
     ++ Data sample_header = sample_pesBytes).
Proof.
  apply (NewPESHeader_payload sample_ExtractTime sample_pesBytes sample_header).
  vm_compute. reflexivity.
Defined.

(** X8 at [sample_pesBytes]. *)
Lemma NewPESHeader_optional_header_witness :
  ∃ b7 b8,
    sample_pesBytes !! 7%nat = Some b7 ∧ sample_pesBytes !! 8%nat = Some b8
    ∧ dataStartIndex sample_header = 9 + u8 b8
    ∧ PacketSize sample_header = pesPacketLength sample_header - 3 - u8 b8
    ∧ HasPTS sample_header = Z.testbit (u8 b7) 7
    ∧ HasDTS sample_header = Z.testbit (u8 b7) 7 && Z.testbit (u8 b7) 6.
Proof.
  apply (NewPESHeader_optional_header sample_ExtractTime sample_pesBytes
           sample_header).
  - vm_compute. reflexivity.
  - reflexivity.
  - simpl. lia.
Defined.

(** X9 at [sample_pesBytes], whose PTS is 90000. *)
Lemma NewPESHeader_timestamps_witness :
  PTS sample_header = sample_ExtractTime (take 5 (drop 9 sample_pesBytes))
  ∧ PTS sample_header = 90000.
Proof.
  split; [|reflexivity].
  refine (proj1 (NewPESHeader_timestamps sample_ExtractTime sample_pesBytes
                   sample_header _) _ _).
  - vm_compute. reflexivity.
  - reflexivity.
  - vm_compute. discriminate.
Defined.

(** X10 at [sample_pesBytes]. *)
Lemma PacketSize_range_witness :
  0 ≤ pesPacketLength sample_header < 65536
  ∧ (dataStartIndex sample_header = 6 ∨ 9 ≤ dataStartIndex sample_header ≤ 264)
  ∧ -258 ≤ PacketSize sample_header ≤ 65535.
Proof.
  apply (PacketSize_range sample_ExtractTime sample_pesBytes sample_header).
  vm_compute. reflexivity.
Defined.

(** X11 at the accumulator that has seen [sample_first]. *)
Lemma collecting_invariant_witness :
  let pa := holding sample_header [x49; x44] in
  pa = new_PESAccumulator
  ∨ ∃ h, pa_PESHeader pa = Some h
         ∧ pa_packetSize pa = PacketSize h
         ∧ 0 ≤ len (pa_Data pa) < pa_packetSize pa.
Proof.
  apply (collecting_invariant sample_ExtractTime sample_PESHeader sample_Payload).
  apply (collecting_Write sample_ExtractTime sample_PESHeader sample_Payload
           new_PESAccumulator sample_first).
  - constructor.
  - vm_compute. reflexivity.
Defined.



(** X15 at an input of a packet of stream 17 and [sample_unit]. *)
Lemma other_streams_ignored_witness :
  readPacketStream sample_ExtractTime sample_PESHeader sample_Payload sample_PID
    sample_ReadID3 (mkReader (concat [sample_other; sample_unit] ++ []) io_EOF)
    256
  = readPacketStream sample_ExtractTime sample_PESHeader sample_Payload
      sample_PID sample_ReadID3
      (mkReader
         (concat (filter (λ pkt, sample_PID pkt = 256)
                    [sample_other; sample_unit]) ++ []) io_EOF)
      256.
Proof.
  apply (other_streams_ignored sample_ExtractTime sample_PESHeader
           sample_Payload sample_PID sample_ReadID3 256
           [sample_other; sample_unit] [] io_EOF).
  repeat constructor.
Defined.


(** X18 at a unit of 5 bytes in three packets, which the sample decoder
    reads as one tag. *)
Lemma unit_gives_record_witness :
  readPacketStream_packets sample_ExtractTime sample_PESHeader sample_Payload
    sample_PID sample_ReadID3 256 new_PESAccumulator
    [sample_first; sample_ts ++ [x33]; sample_ts ++ [x04; x00]]
  = Ret ([mkMetaOptional None
            (Some (mkMetaInfo (PTS sample_header)
                     (parseValue <$>
                      {[ "TXXX"%string
                         := ("PFX" +:+ String NUL "payload")%string ]})))],
         Some new_PESAccumulator).
Proof.
  refine (proj1
    (unit_gives_record sample_ExtractTime sample_PESHeader sample_Payload
       sample_PID sample_ReadID3 256 sample_first
       [sample_ts ++ [x33]; sample_ts ++ [x04; x00]]
       sample_pesBytes sample_header [[x33]; [x04; x00]]
       {[ "TXXX"%string := ("PFX" +:+ String NUL "payload")%string ]}
       _ _ _ _ _ _ _)).
  - reflexivity.
  - vm_compute. reflexivity.
  - repeat constructor.
  - repeat constructor; discriminate.
  - vm_compute. reflexivity.
  - repeat constructor.
  - reflexivity.
Defined.

(** X19 at an input whose first packet belongs to the metadata stream and
    does not start a PES unit. *)
Lemma Read_fatal_error_witness :
  Read sample_ExtractTime sample_PESHeader sample_Payload sample_PID
    sample_ReadID3 sample_getStreamPID
    (mkReader (concat [] ++ sample_headless ++ []) io_EOF)
  = Ret (mo_MetaInfo <$> [],
         Some (Wrap "failed accumulation, bailing"
                 (Wrap "first packet must contain a PES Header"
                    (errors_New "packet has no PES header")))).
Proof.
  refine (proj1
    (Read_fatal_error sample_ExtractTime sample_PESHeader sample_Payload
       sample_PID sample_ReadID3 sample_getStreamPID
       (mkReader (concat [] ++ sample_headless ++ []) io_EOF)
       (mkReader (concat [] ++ sample_headless ++ []) io_EOF)
       256 [] sample_headless [] [] new_PESAccumulator new_PESAccumulator false
       (Some (Wrap "first packet must contain a PES Header"
                (errors_New "packet has no PES header")))
       _ _ _ _ _ _ _) _ eq_refl).
  - reflexivity.
  - reflexivity.
  - constructor.
  - reflexivity.
  - reflexivity.
  - reflexivity.
  - vm_compute. reflexivity.
Defined.

(** X22 at the sample program tables. *)
Lemma getStreamPID_found_witness :
  256 ≠ 0
  ∧ ∃ (pat : list (Z * Z)) r0 entry r1 (pmt : list (Z * Z)) pre es post,
      sample_ReadPAT (mkReader [] io_EOF) = (inl pat, r0)
      ∧ entry ∈ pat
      ∧ sample_ReadPMT r1 entry.2 = (inl pmt, mkReader [] io_EOF)
      ∧ pmt = pre ++ es :: post
      ∧ Forall (λ es : Z * Z, es.1 ≠ IVSMetadataStreamType) pre
      ∧ es.1 = IVSMetadataStreamType
      ∧ es.2 = 256.
Proof.
  apply (getStreamPID_found (list (Z * Z)) (list (Z * Z)) (Z * Z)
           sample_ReadPAT id sample_ReadPMT id fst snd
           (mkReader [] io_EOF) (mkReader [] io_EOF) 256).
  reflexivity.
Defined.

(** X23 at an input on which no program association table can be read. *)
Lemma getStreamPID_not_found_witness :
  (∃ e, sample_ReadPAT_empty (mkReader [] io_EOF) = (inr e, mkReader [] io_EOF)
        ∧ Wrap "failed ReadPAT" io_EOF = Wrap "failed ReadPAT" e)
  ∨ (∃ (pat : list (Z * Z)) r0 entry r1 e,
       sample_ReadPAT_empty (mkReader [] io_EOF) = (inl pat, r0)
       ∧ entry ∈ pat
       ∧ sample_ReadPMT r1 entry.2 = (inr e, mkReader [] io_EOF)
       ∧ Wrap "failed ReadPAT" io_EOF = Wrap "failed ReadPMT" e)
  ∨ Wrap "failed ReadPAT" io_EOF = errors_New "no metadata stream found".
Proof.
  refine (proj1
    (getStreamPID_not_found (list (Z * Z)) (list (Z * Z)) (Z * Z)
       sample_ReadPAT_empty id sample_ReadPMT id fst snd
       (mkReader [] io_EOF) (mkReader [] io_EOF)
       (Wrap "failed ReadPAT" io_EOF) _)).
  reflexivity.
Defined.

(** X16 at the packets of a unit, split after the first. *)
Lemma messages_of_prefix_witness :
  ∃ sent1 opa1,
    readPacketStream_packets sample_ExtractTime sample_PESHeader sample_Payload
      sample_PID sample_ReadID3 256 new_PESAccumulator [sample_first]
    = Ret (sent1, opa1)
    ∧ sent1 `prefix_of`
        [mkMetaOptional None
           (Some (mkMetaInfo 90000
                    {[ "TXXX"%string := mkValue "PFX" "payload" ]}))]
    ∧ (opa1 = None →
       [mkMetaOptional None
          (Some (mkMetaInfo 90000
                   {[ "TXXX"%string := mkValue "PFX" "payload" ]}))] = sent1
       ∧ Some new_PESAccumulator = None).
Proof.
  apply (messages_of_prefix sample_ExtractTime sample_PESHeader sample_Payload
           sample_PID sample_ReadID3 256 new_PESAccumulator [sample_first]
           [sample_ts ++ [x33]; sample_ts ++ [x04; x00]]).
  vm_compute. reflexivity.
Defined.

(** X25 at an input of one unit in one packet, [sample_unit], followed by
    one byte. *)
Lemma Read_units_witness :
  Read sample_ExtractTime sample_PESHeader sample_Payload sample_PID
    sample_ReadID3 sample_getStreamPID
    (mkReader (concat (concat [[sample_unit]]) ++ [x47]) io_EOF)
  = Ret (Some <$> [sample_record], None).
Proof.
  apply (Read_units sample_ExtractTime sample_PESHeader sample_Payload sample_PID
           sample_ReadID3 sample_getStreamPID
           (mkReader (concat (concat [[sample_unit]]) ++ [x47]) io_EOF)
           (mkReader (concat (concat [[sample_unit]]) ++ [x47]) io_EOF)
           256 [[sample_unit]] [sample_record] [x47]).
  - reflexivity.
  - reflexivity.
  - repeat constructor.
  - vm_compute. lia.
  - reflexivity.
  - constructor; [|constructor].
    eexists _, _, _, _, _, _. split; [reflexivity|].
    split; [repeat constructor|].
    split; [vm_compute; reflexivity|].
    split; [vm_compute; reflexivity|].
    split; [constructor|].
    split; [constructor|].
    split; [vm_compute; reflexivity|].
    split; [vm_compute; reflexivity|].
    vm_compute. reflexivity.
Defined.
